(** * The reverse-proxy routing policy of [NginxProxyStack]

    [lib/nginx-proxy-stack.ts] declares a load balancer listener and an
    instance whose boot script writes an nginx site configuration.  The
    development follows that text on its way to the proxy:

    - [Js]     the template literal of [userData.addCommands], cooked;
    - [Sh]     the single-quoted [bash -c] argument and its here-document;
    - [Conf]   the nginx configuration syntax (tokens, directives, blocks);
    - [Regex]  the regular expressions of [rewrite];
    - [Nginx]  location selection, rewriting, [proxy_pass], headers;
    - [Alb]    the HTTPS listener, its rule and its default action;
    - [Stack]  the values the stack file fixes, and the properties. *)

From Stdlib Require Import List String Ascii Bool Arith NArith Lia.
Import ListNotations.
Local Open Scope list_scope.
Local Open Scope string_scope.
Set Warnings "-register-all".

(** ** Characters and strings *)

Definition LF : ascii := "010"%char.
Definition TAB : ascii := "009"%char.
Definition CR : ascii := "013"%char.
Definition SP : ascii := "032"%char.
Definition backslash : ascii := "092"%char.
Definition dollar : ascii := "036"%char.
Definition backtick : ascii := "096"%char.
Definition quote1 : ascii := "039"%char.

Definition str1 (c : ascii) : string := String c EmptyString.

Definition is_empty (s : string) : bool :=
  match s with EmptyString => true | String _ _ => false end.

Definition between (lo hi c : ascii) : bool :=
  N.leb (N_of_ascii lo) (N_of_ascii c) && N.leb (N_of_ascii c) (N_of_ascii hi).

(** The value of a decimal digit. *)
Definition digit_value (c : ascii) : nat := N.to_nat (N_of_ascii c - 48).

Definition is_digit (c : ascii) : bool := between "0" "9" c.
Definition is_upper (c : ascii) : bool := between "A" "Z" c.
Definition is_alpha (c : ascii) : bool :=
  between "a" "z" c || is_upper c || Ascii.eqb c "_".
Definition is_space (c : ascii) : bool :=
  Ascii.eqb c SP || Ascii.eqb c TAB || Ascii.eqb c CR || Ascii.eqb c LF.

Definition lower_char (c : ascii) : ascii :=
  if is_upper c then ascii_of_N (N_of_ascii c + 32) else c.

Fixpoint lower (s : string) : string :=
  match s with
  | EmptyString => EmptyString
  | String c r => String (lower_char c) (lower r)
  end.

(** [strip_prefix p s] is what follows [p] in [s], when [s] starts with [p]. *)
Fixpoint strip_prefix (p s : string) : option string :=
  match p, s with
  | EmptyString, _ => Some s
  | String a p', String b s' =>
      if Ascii.eqb a b then strip_prefix p' s' else None
  | String _ _, EmptyString => None
  end.

Definition starts_with (p s : string) : bool :=
  match strip_prefix p s with Some _ => true | None => false end.

(** The first [n] characters of [s]. *)
Fixpoint take (n : nat) (s : string) : string :=
  match n, s with
  | S n', String c r => String c (take n' r)
  | _, _ => EmptyString
  end.

(** [split_at c s] cuts [s] at the first [c]: the part before it, and the
    part after it when there is one. *)
Fixpoint split_at (c : ascii) (s : string) : string * option string :=
  match s with
  | EmptyString => (EmptyString, None)
  | String a r =>
      if Ascii.eqb a c then (EmptyString, Some r)
      else let (h, t) := split_at c r in (String a h, t)
  end.

Fixpoint lines_fuel (n : nat) (s : string) : list string :=
  match n with
  | 0 => [s]
  | S n' =>
      match split_at LF s with
      | (h, None) => [h]
      | (h, Some t) => h :: lines_fuel n' t
      end
  end.

Definition lines (s : string) : list string := lines_fuel (String.length s) s.

Fixpoint unlines (l : list string) : string :=
  match l with
  | [] => EmptyString
  | [x] => x
  | x :: r => x ++ str1 LF ++ unlines r
  end.

Fixpoint no_newline (s : string) : bool :=
  match s with
  | EmptyString => true
  | String c r => negb (Ascii.eqb c LF) && no_newline r
  end.

(** ** Variable references: [$name], [${name}], [$1]

    The here-document of the boot script and the values of nginx directives
    both carry [$]-references.  One scanner serves the two; the shell also
    reads a backslash before [$], a backtick or a backslash as an escape. *)

Module Scan.

Inductive state :=
| Text
| Esc
| Dollar
| Name (n : string)
| Brace (n : string).

Section Scanner.
(** [escapes]: whether a backslash escapes (the shell) or not (nginx). *)
Variable escapes : bool.
Variable value : string -> string.

Definition text_step (c : ascii) : state * string :=
  if escapes && Ascii.eqb c backslash then (Esc, EmptyString)
  else if Ascii.eqb c dollar then (Dollar, EmptyString)
  else (Text, str1 c).

Definition step (st : state) (c : ascii) : state * string :=
  match st with
  | Text => text_step c
  | Esc =>
      if Ascii.eqb c dollar || Ascii.eqb c backtick || Ascii.eqb c backslash
      then (Text, str1 c)
      else if Ascii.eqb c LF then (Text, EmptyString)
      else (Text, String backslash (str1 c))
  | Dollar =>
      if is_digit c then (Text, value (str1 c))
      else if is_alpha c then (Name (str1 c), EmptyString)
      else if Ascii.eqb c "{" then (Brace EmptyString, EmptyString)
      else let (st', out) := text_step c in (st', String dollar out)
  | Name n =>
      if is_alpha c || is_digit c then (Name (n ++ str1 c), EmptyString)
      else let (st', out) := text_step c in (st', value n ++ out)
  | Brace n =>
      if Ascii.eqb c "}" then (Text, value n)
      else (Brace (n ++ str1 c), EmptyString)
  end.

Definition flush (st : state) : string :=
  match st with
  | Text => EmptyString
  | Esc => str1 backslash
  | Dollar => str1 dollar
  | Name n => value n
  | Brace n => value n
  end.

Fixpoint run (st : state) (s : string) : string :=
  match s with
  | EmptyString => flush st
  | String c r => let (st', out) := step st c in out ++ run st' r
  end.

Definition subst (s : string) : string := run Text s.
End Scanner.

End Scan.

(** ** The template literal *)

Module Js.

(** The character an escape sequence [\c] of a template literal stands
    for.  The literal of the stack only has [\\]. *)
Definition escape (c : ascii) : ascii :=
  if Ascii.eqb c "n" then LF
  else if Ascii.eqb c "t" then TAB
  else if Ascii.eqb c "r" then CR
  else c.

(** The cooked value of a template literal without [${...}] parts. *)
Fixpoint cook (raw : string) : string :=
  match raw with
  | EmptyString => EmptyString
  | String c r =>
      if Ascii.eqb c backslash then
        match r with
        | EmptyString => EmptyString
        | String e r' => String (escape e) (cook r')
        end
      else String c (cook r)
  end.

End Js.

(** ** The shell: [sudo bash -c '...'] and the here-document inside *)

Module Sh.

Definition env := string -> option string.

Definition value (e : env) (n : string) : string :=
  match e n with Some v => v | None => EmptyString end.

(** The text between the first pair of single quotes of a command:
    nothing is expanded there. *)
Definition single_quoted (cmd : string) : option string :=
  match split_at quote1 cmd with
  | (_, Some r) =>
      match split_at quote1 r with
      | (body, Some _) => Some body
      | _ => None
      end
  | _ => None
  end.

Record heredoc := {
  hd_command : string;   (* what precedes [<<] on the first line *)
  hd_delimiter : string;
  hd_quoted : bool;      (* a quoted delimiter switches expansion off *)
  hd_body : list string
}.

Fixpoint split_redirect (s : string) : option (string * string) :=
  match s with
  | EmptyString => None
  | String a r =>
      match strip_prefix "<<" s with
      | Some d => Some (EmptyString, d)
      | None =>
          match split_redirect r with
          | Some (h, d) => Some (String a h, d)
          | None => None
          end
      end
  end.

Fixpoint until_line (d : string) (l : list string) : option (list string) :=
  match l with
  | [] => None
  | x :: r =>
      if String.eqb x d then Some []
      else match until_line d r with
           | Some b => Some (x :: b)
           | None => None
           end
  end.

Definition unquote (d : string) : string * bool :=
  match d with
  | String c r =>
      if Ascii.eqb c quote1 then (fst (split_at quote1 r), true)
      else if Ascii.eqb c backslash then (r, true)
      else (d, false)
  | EmptyString => (d, false)
  end.

Definition parse_heredoc (script : string) : option heredoc :=
  match lines script with
  | first :: rest =>
      match split_redirect first with
      | Some (cmd, d) =>
          let (delim, q) := unquote d in
          match until_line delim rest with
          | Some body =>
              Some {| hd_command := cmd; hd_delimiter := delim;
                      hd_quoted := q; hd_body := body |}
          | None => None
          end
      | None => None
      end
  | [] => None
  end.

(** Parameter expansion of a here-document line. *)
Definition expand (e : env) (s : string) : string :=
  Scan.subst true (value e) s.

(** What the command reads on its standard input: the body, expanded
    unless the delimiter is quoted. *)
Definition heredoc_text (e : env) (h : heredoc) : string :=
  let body := unlines (hd_body h) in
  if hd_quoted h then body else expand e body.

End Sh.

(** ** The syntax of an nginx configuration *)

Module Conf.

Inductive token :=
| TWord (w : string)
| TSemi
| TOpen
| TClose.

(** The lexer's position: between tokens, inside a word, inside a comment. *)
Inductive lex_state :=
| Gap
| Word (w : string)
| Comment.

Definition lex_step (st : lex_state) (c : ascii) : lex_state * list token :=
  match st with
  | Gap =>
      if is_space c then (Gap, [])
      else if Ascii.eqb c ";" then (Gap, [TSemi])
      else if Ascii.eqb c "{" then (Gap, [TOpen])
      else if Ascii.eqb c "}" then (Gap, [TClose])
      else if Ascii.eqb c "#" then (Comment, [])
      else (Word (str1 c), [])
  | Word w =>
      if is_space c then (Gap, [TWord w])
      else if Ascii.eqb c ";" then (Gap, [TWord w; TSemi])
      else if Ascii.eqb c "{" then (Gap, [TWord w; TOpen])
      else (Word (w ++ str1 c), [])
  | Comment => if Ascii.eqb c LF then (Gap, []) else (Comment, [])
  end.

Fixpoint lex_from (st : lex_state) (s : string) : list token :=
  match s with
  | EmptyString => match st with Word w => [TWord w] | _ => [] end
  | String c r => let (st', out) := lex_step st c in (out ++ lex_from st' r)%list
  end.

Definition lex (s : string) : list token := lex_from Gap s.

(** A directive: a name, its arguments, and a block when it has one. *)
Inductive directive :=
| Dir (name : string) (args : list string) (block : option (list directive)).

Definition dir_name (d : directive) : string :=
  match d with Dir n _ _ => n end.
Definition dir_args (d : directive) : list string :=
  match d with Dir _ a _ => a end.
Definition dir_block (d : directive) : list directive :=
  match d with Dir _ _ (Some b) => b | Dir _ _ None => [] end.

(** The parser keeps the words of the directive being read, the directives
    of the block being read (last first), and the enclosing blocks. *)
Record frame := {
  fr_words : list string;
  fr_done : list directive
}.

Definition make_dir (words_rev : list string) (b : option (list directive))
  : option directive :=
  match rev words_rev with
  | n :: a => Some (Dir n a b)
  | [] => None
  end.

Definition parse_step (st : frame * list frame) (t : token)
  : option (frame * list frame) :=
  let (cur, stack) := st in
  match t with
  | TWord w =>
      Some ({| fr_words := w :: fr_words cur; fr_done := fr_done cur |}, stack)
  | TSemi =>
      match make_dir (fr_words cur) None with
      | Some d => Some ({| fr_words := []; fr_done := d :: fr_done cur |}, stack)
      | None => None
      end
  | TOpen =>
      match fr_words cur with
      | [] => None
      | _ :: _ => Some ({| fr_words := []; fr_done := [] |}, cur :: stack)
      end
  | TClose =>
      match fr_words cur, stack with
      | [], outer :: stack' =>
          match make_dir (fr_words outer) (Some (rev (fr_done cur))) with
          | Some d =>
              Some ({| fr_words := []; fr_done := d :: fr_done outer |}, stack')
          | None => None
          end
      | _, _ => None
      end
  end.

Fixpoint parse_from (st : frame * list frame) (ts : list token)
  : option (list directive) :=
  match ts with
  | [] =>
      match st with
      | ({| fr_words := []; fr_done := ds |}, []) => Some (rev ds)
      | _ => None
      end
  | t :: r =>
      match parse_step st t with
      | Some st' => parse_from st' r
      | None => None
      end
  end.

Definition parse (s : string) : option (list directive) :=
  parse_from ({| fr_words := []; fr_done := [] |}, []) (lex s).

(** The directives of a block with a given name, in the order written. *)
Definition named (n : string) (ds : list directive) : list directive :=
  filter (fun d => String.eqb (dir_name d) n) ds.

End Conf.

(** ** Regular expressions of [rewrite] *)

Module Regex.

(** The constructs the configuration uses: literal characters, [.], the
    anchors [^] and [$], [?], [*] and capturing groups. *)
Inductive regex :=
| RChar (c : ascii)
| RAny
| RBol
| REol
| REps
| RSeq (r1 r2 : regex)
| ROpt (r : regex)
| RStar (r : regex)
| RGroup (n : nat) (r : regex).

Definition seq_of (atoms_rev : list regex) : regex :=
  fold_left (fun acc a => RSeq a acc) atoms_rev REps.

Record pstate := {
  atoms : list regex;                 (* of the sequence being read, last first *)
  opened : list (nat * list regex);   (* the groups not yet closed *)
  next_group : nat
}.

Definition postfix (f : regex -> regex) (st : pstate) : option pstate :=
  match atoms st with
  | a :: r =>
      Some {| atoms := f a :: r; opened := opened st;
              next_group := next_group st |}
  | [] => None
  end.

Definition push (a : regex) (st : pstate) : option pstate :=
  Some {| atoms := a :: atoms st; opened := opened st;
          next_group := next_group st |}.

Definition unsupported (c : ascii) : bool :=
  existsb (Ascii.eqb c) ["|"; "["; "]"; "{"; "}"; "+"; backslash]%char.

Definition pstep (st : pstate) (c : ascii) : option pstate :=
  if Ascii.eqb c "(" then
    Some {| atoms := []; opened := (next_group st, atoms st) :: opened st;
            next_group := S (next_group st) |}
  else if Ascii.eqb c ")" then
    match opened st with
    | (n, outer) :: rest =>
        Some {| atoms := RGroup n (seq_of (atoms st)) :: outer; opened := rest;
                next_group := next_group st |}
    | [] => None
    end
  else if Ascii.eqb c "?" then postfix ROpt st
  else if Ascii.eqb c "*" then postfix RStar st
  else if Ascii.eqb c "." then push RAny st
  else if Ascii.eqb c "^" then push RBol st
  else if Ascii.eqb c dollar then push REol st
  else if unsupported c then None
  else push (RChar c) st.

Fixpoint pfrom (st : pstate) (s : string) : option regex :=
  match s with
  | EmptyString =>
      match opened st with
      | [] => Some (seq_of (atoms st))
      | _ :: _ => None
      end
  | String c r =>
      match pstep st c with
      | Some st' => pfrom st' r
      | None => None
      end
  end.

Definition compile (s : string) : option regex :=
  pfrom {| atoms := []; opened := []; next_group := 1 |} s.

(** Captured groups, the latest first. *)
Definition captures := list (nat * string).

Fixpoint capture (n : nat) (c : captures) : string :=
  match c with
  | [] => EmptyString
  | (m, v) :: r => if Nat.eqb m n then v else capture n r
  end.

Definition cont := string -> captures -> option captures.

(** Greedy repetition: one more round of [body] as long as it consumes
    something, then the rest; [n] bounds the rounds by the length left. *)
Fixpoint star_loop (body : string -> captures -> cont -> option captures)
    (k : cont) (n : nat) (s : string) (caps : captures) : option captures :=
  match n with
  | 0 => k s caps
  | S n' =>
      match body s caps
              (fun s' c' =>
                 if Nat.ltb (String.length s') (String.length s)
                 then star_loop body k n' s' c' else None) with
      | Some res => Some res
      | None => k s caps
      end
  end.

Section Matching.
(** The length of the whole subject: [^] holds where all of it is left. *)
Variable total : nat.

(** Backtracking match of [r] at the head of [s]; [k] continues with what
    is left.  [.] leaves out the newline; [$] holds at the end and before
    a final newline. *)
Fixpoint run (r : regex) (s : string) (caps : captures) (k : cont)
  {struct r} : option captures :=
  match r with
  | RChar c =>
      match s with
      | String a s' => if Ascii.eqb a c then k s' caps else None
      | EmptyString => None
      end
  | RAny =>
      match s with
      | String a s' => if Ascii.eqb a LF then None else k s' caps
      | EmptyString => None
      end
  | RBol => if Nat.eqb (String.length s) total then k s caps else None
  | REol =>
      if is_empty s || String.eqb s (str1 LF) then k s caps else None
  | REps => k s caps
  | RSeq r1 r2 => run r1 s caps (fun s1 c1 => run r2 s1 c1 k)
  | ROpt r1 =>
      match run r1 s caps k with
      | Some res => Some res
      | None => k s caps
      end
  | RStar r1 => star_loop (run r1) k (String.length s) s caps
  | RGroup n r1 =>
      run r1 s caps
        (fun s' c' =>
           k s' ((n, take (String.length s - String.length s') s) :: c'))
  end.

(** The first position of the subject where [r] matches. *)
Fixpoint search (r : regex) (s : string) : option captures :=
  match run r s [] (fun _ c => Some c) with
  | Some c => Some c
  | None =>
      match s with
      | EmptyString => None
      | String _ s' => search r s'
      end
  end.

End Matching.

Definition exec (r : regex) (subject : string) : option captures :=
  search (String.length subject) r subject.

End Regex.

(** ** The proxy: how nginx serves a request from a [server] block *)

Module Nginx.

Import Conf.

Inductive modifier := Prefix | Exact.

Record location := {
  loc_modifier : modifier;
  loc_pattern : string;
  loc_body : list directive
}.

Definition is_prefix (l : location) : bool :=
  match loc_modifier l with Prefix => true | Exact => false end.

Definition is_exact (l : location) : bool := negb (is_prefix l).

(** [location P { ... }] and [location = P { ... }]; the other forms
    (regular expressions, [^~], named locations) have no reading here. *)
Definition location_of (d : directive) : option location :=
  match d with
  | Dir _ [p] (Some b) =>
      if existsb (fun c => starts_with (str1 c) p) ["="; "~"; "^"; "@"]%char
      then None
      else Some {| loc_modifier := Prefix; loc_pattern := p; loc_body := b |}
  | Dir _ [m; p] (Some b) =>
      if String.eqb m "="
      then Some {| loc_modifier := Exact; loc_pattern := p; loc_body := b |}
      else None
  | _ => None
  end.

Fixpoint all_some {A : Type} (l : list (option A)) : option (list A) :=
  match l with
  | [] => Some []
  | Some x :: r =>
      match all_some r with
      | Some xs => Some (x :: xs)
      | None => None
      end
  | None :: _ => None
  end.

Record server := {
  srv_body : list directive;
  srv_locations : list location
}.

(** The one [server] block of a configuration. *)
Definition server_of (cfg : list directive) : option server :=
  match named "server" cfg with
  | [d] =>
      match all_some (map location_of (named "location" (dir_block d))) with
      | Some ls => Some {| srv_body := dir_block d; srv_locations := ls |}
      | None => None
      end
  | _ => None
  end.

(** *** Choosing the location *)

Definition loc_matches (l : location) (uri : string) : bool :=
  match loc_modifier l with
  | Exact => String.eqb (loc_pattern l) uri
  | Prefix => starts_with (loc_pattern l) uri
  end.

Definition longer (l : location) (best : option location) : bool :=
  match best with
  | None => true
  | Some b => Nat.ltb (String.length (loc_pattern b)) (String.length (loc_pattern l))
  end.

(** The prefix location with the longest pattern that starts the URI. *)
Fixpoint longest_prefix (ls : list location) (uri : string)
    (best : option location) : option location :=
  match ls with
  | [] => best
  | l :: r =>
      if is_prefix l && loc_matches l uri && longer l best
      then longest_prefix r uri (Some l)
      else longest_prefix r uri best
  end.

(** An exact location wins; otherwise the longest matching prefix. *)
Definition select (ls : list location) (uri : string) : option location :=
  match find (fun l => is_exact l && loc_matches l uri) ls with
  | Some l => Some l
  | None => longest_prefix ls uri None
  end.

(** *** Requests and variables *)

(** A request as the server has it.  [uri] is the path after nginx has
    normalised it (percent-decoded, dot segments resolved, doubled slashes
    merged): locations and rewrites are matched against that. *)
Record request := {
  uri : string;
  host : string;
  scheme : string;
  remote_addr : string;
  x_forwarded_for : option string
}.

Definition proxy_add_x_forwarded_for (r : request) : string :=
  match x_forwarded_for r with
  | Some chain => chain ++ ", " ++ remote_addr r
  | None => remote_addr r
  end.

(** The value of [$n]: a variable of the request, or a capture of the
    last regular expression when [n] is a digit. *)
Definition variable (r : request) (caps : Regex.captures) (n : string)
  : string :=
  if String.eqb n "remote_addr" then remote_addr r
  else if String.eqb n "proxy_add_x_forwarded_for"
       then proxy_add_x_forwarded_for r
  else if String.eqb n "scheme" then scheme r
  else if String.eqb n "host" then host r
  else if String.eqb n "uri" then uri r
  else match n with
       | String d EmptyString =>
           if is_digit d then Regex.capture (digit_value d) caps
           else EmptyString
       | _ => EmptyString
       end.

Definition eval (r : request) (caps : Regex.captures) (s : string) : string :=
  Scan.subst false (variable r caps) s.

(** *** [rewrite] *)

Inductive flag := NoFlag | Last | Break | Redirect | Permanent.

Record rewrite_rule := {
  rw_regex : Regex.regex;
  rw_replacement : string;
  rw_flag : flag
}.

Definition flag_of (s : string) : option flag :=
  if String.eqb s "last" then Some Last
  else if String.eqb s "break" then Some Break
  else if String.eqb s "redirect" then Some Redirect
  else if String.eqb s "permanent" then Some Permanent
  else None.

Definition rewrite_of (d : directive) : option rewrite_rule :=
  let mk re repl f :=
    match Regex.compile re with
    | Some r => Some {| rw_regex := r; rw_replacement := repl; rw_flag := f |}
    | None => None
    end in
  match dir_args d with
  | [re; repl] => mk re repl NoFlag
  | [re; repl; f] =>
      match flag_of f with
      | Some fl => mk re repl fl
      | None => None
      end
  | _ => None
  end.

(** Where the rewrite directives of a location leave the request. *)
Inductive rewritten :=
| Stay (uri : string) (changed : bool)  (* handled by this location *)
| Research (uri : string)               (* the locations are searched again *)
| Moved (code : nat) (target : string)  (* answered with a redirect *)
| Invalid.                              (* a directive without a reading *)

Fixpoint run_rewrites (ds : list directive) (req : request) (u : string)
    (changed : bool) : rewritten :=
  match ds with
  | [] => if changed then Research u else Stay u false
  | d :: rest =>
      match rewrite_of d with
      | None => Invalid
      | Some rw =>
          match Regex.exec (rw_regex rw) u with
          | None => run_rewrites rest req u changed
          | Some caps =>
              let u' := eval req caps (rw_replacement rw) in
              match rw_flag rw with
              | NoFlag => run_rewrites rest req u' true
              | Last => Research u'
              | Break => Stay u' true
              | Redirect => Moved 302 u'
              | Permanent => Moved 301 u'
              end
          end
      end
  end.

(** *** [proxy_pass], [proxy_set_header], [proxy_redirect], [root] *)

Record url := {
  url_scheme : string;
  url_host : string;
  url_uri : option string   (* the part from the first [/] after the host *)
}.

Definition parse_url (s : string) : option url :=
  let mk sch rest :=
    match split_at "/" rest with
    | (h, None) => {| url_scheme := sch; url_host := h; url_uri := None |}
    | (h, Some p) =>
        {| url_scheme := sch; url_host := h; url_uri := Some (String "/" p) |}
    end in
  match strip_prefix "https://" s with
  | Some rest => Some (mk "https" rest)
  | None =>
      match strip_prefix "http://" s with
      | Some rest => Some (mk "http" rest)
      | None => None
      end
  end.

Definition header := (string * string)%type.

(** The headers a location sets on the request it passes on: one for each
    [proxy_set_header NAME VALUE], in the order written.  A directive with
    another number of arguments sets nothing; a file that has one does not
    pass the test of the configuration ([config_test], [load]). *)
Definition set_headers (l : location) (req : request) : list header :=
  flat_map
    (fun d =>
       match dir_args d with
       | [n; v] => [(n, eval req [] v)]
       | _ => []
       end)
    (named "proxy_set_header" (loc_body l)).

Record upstream_request := {
  up_scheme : string;
  up_host : string;
  up_uri : string;
  up_headers : list header
}.

Inductive outcome :=
| Proxied (l : location) (u : upstream_request)
| Static (root : string) (path : string)
| Redirected (code : nat) (target : string)
| Failed (code : nat).

(** The root of files when no [root] directive applies. *)
Definition default_root : string := "html".

Definition root_of (ds : list directive) : option string :=
  match named "root" ds with
  | d :: _ => match dir_args d with [r] => Some r | _ => None end
  | [] => None
  end.

Definition static_root (srv : server) (body : list directive) : string :=
  match root_of body with
  | Some r => r
  | None =>
      match root_of (srv_body srv) with
      | Some r => r
      | None => default_root
      end
  end.

(** The URI sent upstream.  A URI changed by [rewrite ... break] is sent
    as it is; otherwise a [proxy_pass] with a URI part replaces the part of
    the request URI that matched the location with it, and a [proxy_pass]
    without one sends the request URI unchanged. *)
Definition upstream_uri (l : location) (target : url) (u : string)
    (changed : bool) : string :=
  if changed then u
  else match url_uri target with
       | None => u
       | Some base =>
           match strip_prefix (loc_pattern l) u with
           | Some rest => base ++ rest
           | None => u
           end
       end.

Definition content (srv : server) (l : location) (req : request)
    (u : string) (changed : bool) : outcome :=
  match named "proxy_pass" (loc_body l) with
  | [] => Static (static_root srv (loc_body l)) u
  | d :: _ =>
      match dir_args d with
      | [target] =>
          match parse_url target with
          | Some t =>
              Proxied l {| up_scheme := url_scheme t;
                           up_host := url_host t;
                           up_uri := upstream_uri l t u changed;
                           up_headers := set_headers l req |}
          | None => Failed 500
          end
      | _ => Failed 500
      end
  end.

(** *** One request *)

(** How many times the locations may be searched for one request. *)
Definition max_uri_changes : nat := 10.

(** What the locations and their rewrites say of a request for the URI
    [u], with the number of location searches made.  The redirect to a
    pattern ([auto_redirect]) and the search for an error page
    ([error_search]) are given apart. *)
Fixpoint find_config (fuel : nat) (srv : server) (req : request)
    (u : string) : outcome * nat :=
  match fuel with
  | 0 => (Failed 500, 0)
  | S fuel' =>
      match select (srv_locations srv) u with
      | None => (Static (static_root srv []) u, 1)
      | Some l =>
          match run_rewrites (named "rewrite" (loc_body l)) req u false with
          | Stay u' changed => (content srv l req u' changed, 1)
          | Research u' =>
              let (o, n) := find_config fuel' srv req u' in (o, S n)
          | Moved c t => (Redirected c t, 1)
          | Invalid => (Failed 500, 1)
          end
      end
  end.

Definition dispatch (srv : server) (req : request) : outcome * nat :=
  find_config (S max_uri_changes) srv req (uri req).

(** The answer the blocks of [srv] give.  Whether nginx runs a server
    from a file at all is [load]. *)
Definition handle (srv : server) (req : request) : outcome :=
  fst (dispatch srv req).

(** *** Redirects coming back *)

(** [proxy_redirect FROM TO]: a [Location] that starts with [FROM] has this
    start replaced by [TO]; the first directive that applies is used. *)
Fixpoint apply_redirects (ds : list directive) (loc_header : string)
  : string :=
  match ds with
  | [] => loc_header
  | d :: rest =>
      match dir_args d with
      | [from; to] =>
          match strip_prefix from loc_header with
          | Some tail => to ++ tail
          | None => apply_redirects rest loc_header
          end
      | _ => apply_redirects rest loc_header
      end
  end.

Definition proxy_redirect (l : location) (loc_header : string) : string :=
  apply_redirects (named "proxy_redirect" (loc_body l)) loc_header.

(** The [Location] of a redirect of the upstream, as the client gets it. *)
Definition returned_location (o : outcome) (loc_header : string) : string :=
  match o with
  | Proxied l _ => proxy_redirect l loc_header
  | _ => loc_header
  end.

(** *** Timeouts and error pages *)

Fixpoint digits (s : string) (acc : nat) : option nat :=
  match s with
  | EmptyString => None
  | String c r =>
      if is_digit c then
        let acc' := 10 * acc + digit_value c in
        match r with
        | EmptyString => Some acc'
        | String u EmptyString =>
            if Ascii.eqb u "s" then Some acc' else digits r acc'
        | _ => digits r acc'
        end
      else None
  end.

(** A time given in seconds: [60] or [60s]. *)
Definition seconds (s : string) : option nat := digits s 0.

Definition timeout (name : string) (l : location) : option nat :=
  match named name (loc_body l) with
  | d :: _ => match dir_args d with [t] => seconds t | _ => None end
  | [] => None
  end.

(** The page [error_page] names for a status code. *)
Fixpoint error_page (ds : list directive) (code : string) : option string :=
  match ds with
  | [] => None
  | d :: rest =>
      match rev (dir_args d) with
      | page :: codes =>
          if String.eqb (dir_name d) "error_page"
             && existsb (String.eqb code) codes
          then Some page else error_page rest code
      | [] => error_page rest code
      end
  end.

(** *** The configuration test *)

Definition arity_ok (d : directive) : bool :=
  let n := List.length (dir_args d) in
  let name := dir_name d in
  if String.eqb name "proxy_set_header" then Nat.eqb n 2
  else if String.eqb name "rewrite" then Nat.eqb n 2 || Nat.eqb n 3
  else if String.eqb name "proxy_redirect" then Nat.eqb n 1 || Nat.eqb n 2
  else if String.eqb name "location" then Nat.eqb n 1 || Nat.eqb n 2
  else if String.eqb name "server" then Nat.eqb n 0
  else if String.eqb name "error_page" then Nat.leb 2 n
  else if existsb (String.eqb name) ["listen"; "server_name"] then Nat.leb 1 n
  else if existsb (String.eqb name)
            ["proxy_pass"; "proxy_ssl_server_name"; "proxy_connect_timeout";
             "proxy_read_timeout"; "root"]
       then Nat.eqb n 1
  else false.

(** Every directive is known and has the number of arguments it takes. *)
Fixpoint well_formed (d : directive) : bool :=
  arity_ok d &&
  match d with
  | Dir _ _ (Some b) => forallb well_formed b
  | Dir _ _ None => true
  end.

Definition config_test (cfg : list directive) : bool :=
  forallb well_formed cfg.

(** *** Loading a configuration *)

(** nginx serves from a file only once the file has passed the test of the
    configuration; a file that fails it is refused as a whole, and no
    server runs from it. *)
Definition load (cfg : list directive) : option server :=
  if config_test cfg then server_of cfg else None.

(** *** What a location says about a URI *)

(** Where a location passes a request: the scheme and the host of its
    [proxy_pass] and the URI it sends there; nothing for a location
    without [proxy_pass]. *)
Definition pass_to (l : location) (u : string) (changed : bool)
  : option (string * string * string) :=
  match named "proxy_pass" (loc_body l) with
  | d :: _ =>
      match dir_args d with
      | [target] =>
          match parse_url target with
          | Some t => Some (url_scheme t, url_host t, upstream_uri l t u changed)
          | None => None
          end
      | _ => None
      end
  | [] => None
  end.

Definition has_proxy_pass (l : location) : bool :=
  match named "proxy_pass" (loc_body l) with
  | [] => false
  | _ :: _ => true
  end.

(** A URI that is the pattern of a proxied prefix location less its final
    slash, and has no exact location of its own, is answered with a 301 to
    the pattern: the location concerned. *)
Definition auto_redirect (ls : list location) (u : string) : option location :=
  match find (fun l => is_exact l && loc_matches l u) ls with
  | Some _ => None
  | None =>
      find (fun l => is_prefix l && has_proxy_pass l
                     && String.eqb (loc_pattern l) (u ++ "/")) ls
  end.


End Nginx.

(** ** The load balancer listener *)

Module Alb.

Inductive action :=
| FixedResponse (statusCode : nat) (contentType messageBody : string)
| Forward (targetGroups : list string).

Inductive condition :=
| HostHeaders (values : list string).

Record rule := {
  priority : nat;
  conditions : list condition;
  rule_action : action
}.

Record listener := {
  port : nat;
  protocol : string;
  defaultAction : action;
  rules : list rule
}.

Record target_group := {
  tg_name : string;
  tg_port : nat;
  tg_protocol : string
}.

(** A request as it reaches the listener. *)
Record request := {
  host : string;
  path : string;
  client_addr : string;
  forwarded_for : option string
}.

(** Host names compare without regard to letter case.  (The values of the
    stack have none of the wildcard characters.) *)
Definition host_matches (value h : string) : bool :=
  String.eqb (lower value) (lower h).

Definition condition_holds (c : condition) (r : request) : bool :=
  match c with
  | HostHeaders values => existsb (fun v => host_matches v (host r)) values
  end.

Definition rule_applies (ru : rule) (r : request) : bool :=
  forallb (fun c => condition_holds c r) (conditions ru).

Definition before (ru : rule) (best : option rule) : bool :=
  match best with
  | None => true
  | Some b => Nat.ltb (priority ru) (priority b)
  end.

(** The rule that applies with the least priority number. *)
Fixpoint first_rule (rs : list rule) (r : request) (best : option rule)
  : option rule :=
  match rs with
  | [] => best
  | ru :: rest =>
      if rule_applies ru r && before ru best
      then first_rule rest r (Some ru)
      else first_rule rest r best
  end.

Definition route (l : listener) (r : request) : action :=
  match first_rule (rules l) r None with
  | Some ru => rule_action ru
  | None => defaultAction l
  end.

End Alb.

(** ** The stack file *)

Module Source.

Definition targetGroup : Alb.target_group :=
  {| Alb.tg_name := "NginxTargetGroup";
     Alb.tg_port := 80;
     Alb.tg_protocol := "HTTP" |}.

(** [alb.addListener("HttpsListener", ...)] with the action added by
    [listener.addAction("AllowBimecoDomain", ...)]. *)
Definition listener : Alb.listener :=
  {| Alb.port := 443;
     Alb.protocol := "HTTPS";
     Alb.defaultAction := Alb.FixedResponse 403 "text/plain" "Forbidden";
     Alb.rules :=
       [ {| Alb.priority := 3;
            Alb.conditions := [Alb.HostHeaders ["www.bim.com.sg"]];
            Alb.rule_action := Alb.Forward [Alb.tg_name targetGroup] |} ] |}.

(** The template literal passed to [userData.addCommands], as the stack
    file spells it between the backticks. *)
Definition userDataTemplate : list string := [
    "sudo bash -c 'cat > /etc/nginx/sites-available/default <<EOF";
    "server {";
    "    listen 80;";
    "    listen [::]:80;";
    "    server_name _;";
    EmptyString;
    "    location / {";
    "        proxy_pass https://www.bim.com.sg;";
    "        proxy_set_header Host www.bim.com.sg;";
    "        proxy_set_header X-Real-IP $remote_addr;";
    "        proxy_set_header X-Forwarded-For $proxy_add_x_forwarded_for;";
    "        proxy_set_header X-Forwarded-Proto $scheme;";
    "        proxy_ssl_server_name on;";
    "    }";
    EmptyString;
    "        # For Next.js static files in jobs section";
    "    location /_next/ {";
    "        proxy_pass https://jobs.bimeco.io/_next/;";
    "        proxy_set_header Host jobs.bimeco.io;";
    "        proxy_set_header X-Real-IP \\$remote_addr;";
    "        proxy_set_header X-Forwarded-For \\$proxy_add_x_forwarded_for;";
    "        proxy_set_header X-Forwarded-Proto \\$scheme;";
    "        proxy_ssl_server_name on;";
    "    }";
    EmptyString;
    "    # For the jobs section";
    "    location /jobs {";
    "        # Rewrite /jobs to /career";
    "        rewrite ^/jobs(/.*)?\\$ /career\\$1 break;";
    "        proxy_pass https://jobs.bimeco.io;";
    "        proxy_set_header Host jobs.bimeco.io;";
    "        proxy_set_header X-Real-IP \\$remote_addr;";
    "        proxy_set_header X-Forwarded-For \\$proxy_add_x_forwarded_for;";
    "        proxy_set_header X-Forwarded-Proto \\$scheme;";
    "        proxy_ssl_server_name on;";
    EmptyString;
    "        proxy_redirect https://jobs.bimeco.io/career/ /jobs/;";
    EmptyString;
    "        proxy_connect_timeout 60s;";
    "        proxy_read_timeout 60s;";
    "    }";
    EmptyString;
    "    # error handling";
    "    error_page 404 /404.html;";
    "    error_page 500 502 503 504 /50x.html;";
    "    location = /50x.html {";
    "        root /usr/share/nginx/html;";
    "    }";
    "}";
    EmptyString;
    "EOF'"
  ].

(** The command the instance runs at boot. *)
Definition userDataCommand : string := Js.cook (unlines userDataTemplate).

(** The text the command leaves in [/etc/nginx/sites-available/default],
    in a shell whose variables are [e]. *)
Definition site_text (e : Sh.env) : option string :=
  match Sh.single_quoted userDataCommand with
  | Some script =>
      match Sh.parse_heredoc script with
      | Some h => Some (Sh.heredoc_text e h)
      | None => None
      end
  | None => None
  end.

(** The shell of the boot script sets none of the names the here-document
    mentions. *)
Definition boot_env : Sh.env := fun _ => None.

Definition site_config (e : Sh.env) : option (list Conf.directive) :=
  match site_text e with
  | Some t => Conf.parse t
  | None => None
  end.

Definition site_server (e : Sh.env) : option Nginx.server :=
  match site_config e with
  | Some cfg => Nginx.server_of cfg
  | None => None
  end.

End Source.

(** ** The stack: listener in front, proxy behind *)

Module Stack.

Import Nginx.

Definition no_server : server := {| srv_body := []; srv_locations := [] |}.

(** The [server] block the instance is given at boot. *)
Definition site : server :=
  Eval vm_compute in
    match Source.site_server Source.boot_env with
    | Some s => s
    | None => no_server
    end.

Definition no_location : location :=
  {| loc_modifier := Exact; loc_pattern := EmptyString; loc_body := [] |}.

(** Its four locations, in the order written. *)
Definition loc_root : location :=
  Eval vm_compute in nth 0 (srv_locations site) no_location.
Definition loc_next : location :=
  Eval vm_compute in nth 1 (srv_locations site) no_location.
Definition loc_jobs : location :=
  Eval vm_compute in nth 2 (srv_locations site) no_location.
Definition loc_50x : location :=
  Eval vm_compute in nth 3 (srv_locations site) no_location.

(** The regular expression of the [rewrite] in [location /jobs]. *)
Definition jobs_regex : Regex.regex :=
  Eval vm_compute in
    match Regex.compile "^/jobs(/.*)?$" with
    | Some r => r
    | None => Regex.REps
    end.

(** The spec's reading of route choice: the first location, in the order
    written, whose pattern matches. *)
Definition first_match (ls : list location) (u : string) : option location :=
  find (fun l => loc_matches l u) ls.

(** The answer a client gets: of the listener itself, or of the proxy. *)
Inductive response :=
| Fixed (statusCode : nat) (contentType body : string)
| FromTarget (o : outcome).

(** The request the load balancer hands to its target: over the protocol of
    the target group, from the balancer's own address [lb], the client's
    address added to the forwarding chain. *)
Definition to_target (lb : string) (r : Alb.request) : request :=
  {| uri := Alb.path r;
     host := Alb.host r;
     scheme := lower (Alb.tg_protocol Source.targetGroup);
     remote_addr := lb;
     x_forwarded_for :=
       Some match Alb.forwarded_for r with
            | Some chain => chain ++ ", " ++ Alb.client_addr r
            | None => Alb.client_addr r
            end |}.

Definition serve (srv : server) (lb : string) (r : Alb.request) : response :=
  match Alb.route Source.listener r with
  | Alb.FixedResponse c t b => Fixed c t b
  | Alb.Forward _ => FromTarget (handle srv (to_target lb r))
  end.

(** What is sent upstream, headers apart. *)
Definition target (o : outcome) : outcome :=
  match o with
  | Proxied l u =>
      Proxied l {| up_scheme := up_scheme u; up_host := up_host u;
                   up_uri := up_uri u; up_headers := [] |}
  | _ => o
  end.

(** How often a header name is set. *)
Definition times (n : string) (hs : list header) : nat :=
  List.length (filter (fun h => String.eqb (fst h) n) hs).

(** The forwarded headers of a route whose upstream is [h]: the fixed
    [Host], the peer address, the forwarding chain with the peer address
    added, and the scheme of the request. *)
Definition forwarded (h : string) (req : request) : list header :=
  [("Host", h); ("X-Real-IP", remote_addr req);
   ("X-Forwarded-For", proxy_add_x_forwarded_for req);
   ("X-Forwarded-Proto", scheme req)].

(** The URI [location /jobs] sends upstream. *)
Definition jobs_uri (u : string) : string :=
  match Regex.exec jobs_regex u with
  | Some caps => "/career" ++ Regex.capture 1 caps
  | None => u
  end.

Definition upstream (h u : string) (hs : list header) : upstream_request :=
  {| up_scheme := "https"; up_host := h; up_uri := u; up_headers := hs |}.

(** The location [site] chooses, and its answer, in closed form. *)
Definition select_site (u : string) : option location :=
  if String.eqb "/50x.html" u then Some loc_50x
  else if starts_with "/_next/" u then Some loc_next
  else if starts_with "/jobs" u then Some loc_jobs
  else if starts_with "/" u then Some loc_root
  else None.

Definition site_answer (req : request) : outcome :=
  let u := uri req in
  if String.eqb "/50x.html" u then Static "/usr/share/nginx/html" u
  else if starts_with "/_next/" u then
    Proxied loc_next
      (upstream "jobs.bimeco.io" u (forwarded "jobs.bimeco.io" req))
  else if starts_with "/jobs" u then
    Proxied loc_jobs
      (upstream "jobs.bimeco.io" (jobs_uri u) (forwarded "jobs.bimeco.io" req))
  else if starts_with "/" u then
    Proxied loc_root (upstream "www.bim.com.sg" u [("Host", "www.bim.com.sg")])
  else Static default_root u.

(** Sample requests. *)
Definition sample (u : string) : request :=
  {| uri := u; host := "www.bim.com.sg"; scheme := "http";
     remote_addr := "10.0.0.7"; x_forwarded_for := Some "203.0.113.9" |}.

Definition other_peer (u : string) : request :=
  {| uri := u; host := "www.bim.com.sg"; scheme := "http";
     remote_addr := "10.0.1.9"; x_forwarded_for := None |}.

Definition client (h p : string) : Alb.request :=
  {| Alb.host := h; Alb.path := p; Alb.client_addr := "203.0.113.9";
     Alb.forwarded_for := None |}.

(** The server that runs on the instance: the one nginx loads from the
    file the boot script writes, if it loads it. *)
Definition running : option server :=
  match Source.site_config Source.boot_env with
  | Some cfg => load cfg
  | None => None
  end.

(** The answer of the instance's proxy to a request, when it runs. *)
Definition proxy_answer (req : request) : option outcome :=
  match running with
  | Some srv => Some (handle srv req)
  | None => None
  end.

(** A shell in which every name stands for its own reference, and the
    server nginx loads from the file written there. *)
Definition reference_env : Sh.env := fun n => Some (String dollar n).

Definition running_with (e : Sh.env) : option server :=
  match Source.site_config e with
  | Some cfg => load cfg
  | None => None
  end.

End Stack.

(** ** Names and plain text *)

(** The characters that continue a variable name. *)
Fixpoint name_chars (s : string) : bool :=
  match s with
  | EmptyString => true
  | String c r => (is_alpha c || is_digit c) && name_chars r
  end.

(** A variable name: a letter or underscore, then letters, digits and
    underscores. *)
Definition is_name (s : string) : bool :=
  match s with
  | EmptyString => false
  | String c r => is_alpha c && name_chars r
  end.

(** A shell that sets [HOME] and nothing else. *)
Definition home_env : Sh.env :=
  fun n => if String.eqb n "HOME" then Some "/root" else None.

(** ** Security groups, health check and listening ports *)

Module Ec2.

Inductive peer :=
| AnyIpv4
| SecurityGroupId (id : string).

Record ingress_rule := {
  ir_peer : peer;
  ir_port : nat;          (* [ec2.Port.tcp] *)
  ir_description : string
}.

Record security_group := {
  sg_id : string;
  sg_description : string;
  allowAllOutbound : bool;
  sg_ingress : list ingress_rule
}.

(** [addIngressRule]: one more rule, after those there are. *)
Definition addIngressRule (sg : security_group) (p : peer) (port : nat)
    (description : string) : security_group :=
  {| sg_id := sg_id sg;
     sg_description := sg_description sg;
     allowAllOutbound := allowAllOutbound sg;
     sg_ingress :=
       (sg_ingress sg
        ++ [ {| ir_peer := p; ir_port := port;
                ir_description := description |} ])%list |}.

(** A TCP connection over IPv4 to a member of a group: the security groups
    its source belongs to, and the port it goes to. *)
Record connection := {
  src_groups : list string;
  dst_port : nat
}.

Definition peer_matches (p : peer) (c : connection) : bool :=
  match p with
  | AnyIpv4 => true
  | SecurityGroupId id => existsb (String.eqb id) (src_groups c)
  end.

(** Inbound traffic is let in by some rule, or not at all. *)
Definition admits (sg : security_group) (c : connection) : bool :=
  existsb
    (fun r => peer_matches (ir_peer r) c && Nat.eqb (ir_port r) (dst_port c))
    (sg_ingress sg).

End Ec2.

Module Deploy.

Import Ec2.

(** [new ec2.SecurityGroup(this, "AlbSecurityGroup", ...)] and its rule. *)
Definition albSecurityGroup : security_group :=
  addIngressRule
    {| sg_id := "AlbSecurityGroup";
       sg_description := "Security group for ALB";
       allowAllOutbound := true;
       sg_ingress := [] |}
    AnyIpv4 443 "Allow HTTPS traffic".

(** [new ec2.SecurityGroup(this, "NginxSecurityGroup", ...)] and its rule. *)
Definition ec2SecurityGroup : security_group :=
  addIngressRule
    {| sg_id := "NginxSecurityGroup";
       sg_description := "Security group for Nginx instance";
       allowAllOutbound := true;
       sg_ingress := [] |}
    (SecurityGroupId (sg_id albSecurityGroup)) 80
    "Allow HTTP traffic from ALB".

(** What follows the last [:] of an address, or all of it. *)
Fixpoint last_part (n : nat) (s : string) : string :=
  match n with
  | 0 => s
  | S n' =>
      match split_at ":" s with
      | (_, None) => s
      | (_, Some r) => last_part n' r
      end
  end.

Definition after_last_colon (s : string) : string :=
  last_part (String.length s) s.

Fixpoint decimal (s : string) (acc : nat) : option nat :=
  match s with
  | EmptyString => None
  | String c r =>
      if is_digit c then
        let acc' := 10 * acc + digit_value c in
        match r with
        | EmptyString => Some acc'
        | _ => decimal r acc'
        end
      else None
  end.

(** The port of a [listen] directive: [80], [[::]:80]. *)
Definition listen_port (d : Conf.directive) : option nat :=
  match Conf.dir_args d with
  | a :: _ => decimal (after_last_colon a) 0
  | [] => None
  end.

(** The ports a [server] block listens on. *)
Definition listen_ports (srv : Nginx.server) : list (option nat) :=
  map listen_port (Conf.named "listen" (Nginx.srv_body srv)).

End Deploy.

(** * Properties *)

Import Nginx Stack.

(** ** Strings *)

Lemma append_empty_r (s : string) : s ++ EmptyString = s.
Proof. induction s as [|c s IH]; simpl; [reflexivity | now rewrite IH]. Qed.

Lemma strip_prefix_inv (p s r : string) :
  strip_prefix p s = Some r -> s = p ++ r.
Proof.
  revert s; induction p as [|a p IH]; intros s H; simpl in *.
  - now inversion H.
  - destruct s as [|b s]; [discriminate|].
    destruct (Ascii.eqb a b) eqn:E; [|discriminate].
    apply Ascii.eqb_eq in E; subst b. now rewrite (IH _ H).
Qed.

Lemma take_all (s : string) : take (String.length s) s = s.
Proof. induction s as [|c s IH]; simpl; [reflexivity | now rewrite IH]. Qed.

(** ** The regular expression of [location /jobs] *)

Lemma star_loop_step body k n s caps :
  Regex.star_loop body k (S n) s caps =
  match body s caps
          (fun s' c' =>
             if Nat.ltb (String.length s') (String.length s)
             then Regex.star_loop body k n s' c' else None) with
  | Some res => Some res
  | None => k s caps
  end.
Proof. reflexivity. Qed.

(** A greedy [.*] takes a whole text without newline when what follows
    accepts the end. *)
Lemma star_any_all
    (body : string -> Regex.captures -> Regex.cont -> option Regex.captures)
    (k : Regex.cont) (res caps : Regex.captures) (t : string) :
  (forall cp k', body EmptyString cp k' = None) ->
  (forall c s cp k',
      Ascii.eqb c LF = false -> body (String c s) cp k' = k' s cp) ->
  no_newline t = true ->
  k EmptyString caps = Some res ->
  forall n, String.length t <= n ->
  Regex.star_loop body k n t caps = Some res.
Proof.
  intros Hnil Hcons Hnl Hk. induction t as [|c t IH]; intros n Hn.
  - destruct n; [exact Hk|]. now rewrite star_loop_step, Hnil.
  - simpl in Hnl. apply andb_prop in Hnl as [Hc Ht].
    destruct n as [|n]; [simpl in Hn; lia|].
    apply negb_true_iff in Hc.
    rewrite star_loop_step, Hcons by exact Hc.
    replace (Nat.ltb (String.length t) (String.length (String c t))) with true
      by (symmetry; apply Nat.ltb_lt; simpl; lia).
    rewrite IH; [reflexivity | assumption | simpl in Hn; lia].
Qed.

Lemma search_here (total : nat) (r : Regex.regex) (s : string)
    (c : Regex.captures) :
  Regex.run total r s [] (fun _ c' => Some c') = Some c ->
  Regex.search total r s = Some c.
Proof. intros H. destruct s; simpl; now rewrite H. Qed.

Lemma jobs_regex_compiled : Regex.compile "^/jobs(/.*)?$" = Some jobs_regex.
Proof. reflexivity. Qed.

Lemma exec_jobs (t : string) :
  no_newline t = true ->
  Regex.exec jobs_regex ("/jobs/" ++ t) = Some [(1, "/" ++ t)].
Proof.
  intros Hnl. unfold Regex.exec. apply search_here.
  cbn [append]. unfold jobs_regex.
  cbn -[Regex.star_loop String.length take Nat.eqb].
  rewrite Nat.eqb_refl.
  erewrite star_any_all; [reflexivity | | | exact Hnl | | apply Nat.le_refl].
  - reflexivity.
  - intros c s cp k' Hc. now rewrite Hc.
  - cbn -[take String.length]. rewrite Nat.sub_0_r, take_all. reflexivity.
Qed.

Lemma jobs_uri_under (t : string) :
  no_newline t = true -> jobs_uri ("/jobs/" ++ t) = "/career/" ++ t.
Proof. intros H. unfold jobs_uri. now rewrite exec_jobs. Qed.

Example jobs_uri_bare : jobs_uri "/jobs" = "/career".
Proof. reflexivity. Qed.

Example jobs_uri_other : jobs_uri "/jobsfoo" = "/jobsfoo".
Proof. reflexivity. Qed.

(** ** The configuration the boot script writes *)

Lemma site_from_source : Source.site_server Source.boot_env = Some site.
Proof. vm_compute. reflexivity. Qed.

(** The here-document looks up three shell variables; wherever they are
    unset the instance gets [site]. *)
Lemma site_of_env (e : Sh.env) :
  e "remote_addr" = None ->
  e "proxy_add_x_forwarded_for" = None ->
  e "scheme" = None ->
  Source.site_server e = Some site.
Proof.
  intros H1 H2 H3.
  assert (Ht : Source.site_text e = Source.site_text Source.boot_env).
  { vm_compute. rewrite H1, H2, H3. reflexivity. }
  unfold Source.site_server, Source.site_config. rewrite Ht.
  exact site_from_source.
Qed.

Lemma site_locations :
  srv_locations site = [loc_root; loc_next; loc_jobs; loc_50x].
Proof. reflexivity. Qed.

(** The directives left in [location /] once the shell has expanded the
    unescaped references. *)
Lemma loc_root_body :
  loc_body loc_root =
  [Conf.Dir "proxy_pass" ["https://www.bim.com.sg"] None;
   Conf.Dir "proxy_set_header" ["Host"; "www.bim.com.sg"] None;
   Conf.Dir "proxy_set_header" ["X-Real-IP"] None;
   Conf.Dir "proxy_set_header" ["X-Forwarded-For"] None;
   Conf.Dir "proxy_set_header" ["X-Forwarded-Proto"] None;
   Conf.Dir "proxy_ssl_server_name" ["on"] None].
Proof. reflexivity. Qed.

(** nginx's test of the configuration rejects them. *)
Lemma site_fails_config_test :
  option_map config_test (Source.site_config Source.boot_env) = Some false.
Proof. vm_compute. reflexivity. Qed.

Lemma select_site_eq (u : string) :
  select (srv_locations site) u = select_site u.
Proof.
  rewrite site_locations. unfold select, select_site.
  cbn -[starts_with String.eqb].
  destruct (String.eqb "/50x.html" u); [reflexivity|].
  destruct (starts_with "/" u), (starts_with "/_next/" u),
    (starts_with "/jobs" u); reflexivity.
Qed.

Lemma eval_career (req : request) (caps : Regex.captures) :
  eval req caps "/career$1" = "/career" ++ Regex.capture 1 caps.
Proof. unfold eval, Scan.subst. cbn. now rewrite append_empty_r. Qed.

Lemma find_config_step fuel srv req u :
  find_config (S fuel) srv req u =
  match select (srv_locations srv) u with
  | None => (Static (static_root srv []) u, 1)
  | Some l =>
      match run_rewrites (Conf.named "rewrite" (loc_body l)) req u false with
      | Stay u' changed => (content srv l req u' changed, 1)
      | Research u' =>
          let (o, n) := find_config fuel srv req u' in (o, S n)
      | Moved c t => (Redirected c t, 1)
      | Invalid => (Failed 500, 1)
      end
  end.
Proof. reflexivity. Qed.

(** What a location of [site] does with a request it was chosen for. *)
Lemma in_50x srv req u :
  run_rewrites (Conf.named "rewrite" (loc_body loc_50x)) req u false
  = Stay u false
  /\ content srv loc_50x req u false = Static "/usr/share/nginx/html" u.
Proof. split; reflexivity. Qed.

Lemma in_root srv req u :
  run_rewrites (Conf.named "rewrite" (loc_body loc_root)) req u false
  = Stay u false
  /\ content srv loc_root req u false
     = Proxied loc_root
         (upstream "www.bim.com.sg" u [("Host", "www.bim.com.sg")]).
Proof. split; reflexivity. Qed.

Lemma in_next srv req u :
  starts_with "/_next/" u = true ->
  run_rewrites (Conf.named "rewrite" (loc_body loc_next)) req u false
  = Stay u false
  /\ content srv loc_next req u false
     = Proxied loc_next
         (upstream "jobs.bimeco.io" u (forwarded "jobs.bimeco.io" req)).
Proof.
  intros Hs. split; [reflexivity|].
  unfold starts_with in Hs.
  destruct (strip_prefix "/_next/" u) as [rest|] eqn:E; [|discriminate].
  unfold content, upstream_uri. cbn -[strip_prefix parse_url].
  change (parse_url "https://jobs.bimeco.io/_next/")
    with (Some {| url_scheme := "https"; url_host := "jobs.bimeco.io";
                  url_uri := Some "/_next/" |}).
  cbn -[strip_prefix]. rewrite E.
  apply strip_prefix_inv in E. rewrite E. reflexivity.
Qed.

Lemma in_jobs srv req u :
  exists changed,
    run_rewrites (Conf.named "rewrite" (loc_body loc_jobs)) req u false
    = Stay (jobs_uri u) changed
    /\ content srv loc_jobs req (jobs_uri u) changed
       = Proxied loc_jobs
           (upstream "jobs.bimeco.io" (jobs_uri u)
              (forwarded "jobs.bimeco.io" req)).
Proof.
  change (Conf.named "rewrite" (loc_body loc_jobs))
    with [Conf.Dir "rewrite" ["^/jobs(/.*)?$"; "/career$1"; "break"] None].
  unfold run_rewrites.
  change (rewrite_of
            (Conf.Dir "rewrite" ["^/jobs(/.*)?$"; "/career$1"; "break"] None))
    with (Some {| rw_regex := jobs_regex; rw_replacement := "/career$1";
                  rw_flag := Break |}).
  cbv beta iota. cbn [rw_regex rw_flag rw_replacement]. unfold jobs_uri.
  destruct (Regex.exec jobs_regex u) as [caps|].
  - exists true. rewrite eval_career. split; reflexivity.
  - exists false. split; reflexivity.
Qed.

(** What the blocks of [site] say of a request, in closed form: one
    search of the locations, and the answer [site_answer] gives. *)
Lemma dispatch_site (req : request) : dispatch site req = (site_answer req, 1).
Proof.
  unfold dispatch. rewrite find_config_step, select_site_eq.
  unfold select_site, site_answer. cbv zeta.
  destruct (String.eqb "/50x.html" (uri req)).
  { destruct (in_50x site req (uri req)) as [-> ->]. reflexivity. }
  destruct (starts_with "/_next/" (uri req)) eqn:Hn.
  { destruct (in_next site req (uri req) Hn) as [-> ->]. reflexivity. }
  destruct (starts_with "/jobs" (uri req)).
  { destruct (in_jobs site req (uri req)) as [ch [-> ->]]. reflexivity. }
  destruct (starts_with "/" (uri req)).
  { destruct (in_root site req (uri req)) as [-> ->]. reflexivity. }
  reflexivity.
Qed.

Lemma handle_site (req : request) : handle site req = site_answer req.
Proof. unfold handle. now rewrite dispatch_site. Qed.

(** ** Which location answers *)

Lemma longest_prefix_spec (ls : list location) (u : string) :
  forall best l,
    (forall b, best = Some b -> is_prefix b = true /\ loc_matches b u = true) ->
    longest_prefix ls u best = Some l ->
    (In l ls \/ best = Some l)
    /\ is_prefix l = true
    /\ loc_matches l u = true
    /\ forall l', In l' ls \/ best = Some l' ->
         is_prefix l' = true -> loc_matches l' u = true ->
         String.length (loc_pattern l') <= String.length (loc_pattern l).
Proof.
  induction ls as [|x ls IH]; intros best l Hbest H; simpl in H.
  - subst best. destruct (Hbest l eq_refl) as [Hp Hm].
    repeat split; auto.
    intros l' [[]|E] _ _. now inversion E.
  - destruct (is_prefix x && loc_matches x u && longer x best) eqn:E.
    + apply andb_prop in E as [E Hlong]. apply andb_prop in E as [Hp Hm].
      apply IH in H.
      2:{ intros b Hb. inversion Hb; subst b. now split. }
      destruct H as (Hin & Hpl & Hml & Hmax).
      repeat split; auto.
      * destruct Hin as [Hin|Hin]; [left; now right|].
        inversion Hin; subst. left; now left.
      * intros l' [[Hx|Hi]|Hb] Hp' Hm'.
        -- subst l'. apply Hmax; auto.
        -- apply Hmax; auto.
        -- subst best. unfold longer in Hlong. apply Nat.ltb_lt in Hlong.
           specialize (Hmax x (or_intror eq_refl) Hp Hm). lia.
    + apply IH in H; [|exact Hbest].
      destruct H as (Hin & Hpl & Hml & Hmax).
      repeat split; auto.
      * destruct Hin; [left; now right | now right].
      * intros l' [[Hx|Hi]|Hb] Hp' Hm'.
        -- subst l'. rewrite Hp', Hm' in E. simpl in E.
           destruct best as [b|]; simpl in E; [|discriminate].
           apply Nat.ltb_ge in E.
           specialize (Hmax b (or_intror eq_refl)).
           destruct (Hbest b eq_refl) as [Hpb Hmb].
           specialize (Hmax Hpb Hmb). lia.
        -- apply Hmax; auto.
        -- apply Hmax; auto.
Qed.

Lemma longest_prefix_some (ls : list location) (u : string) :
  forall best l',
    In l' ls -> is_prefix l' = true -> loc_matches l' u = true ->
    longest_prefix ls u best <> None.
Proof.
  assert (Hkeep : forall ls b, longest_prefix ls u (Some b) <> None).
  { clear. induction ls as [|x ls IH]; intros b; cbn [longest_prefix];
      [discriminate|].
    destruct (is_prefix x && loc_matches x u && longer x (Some b)); apply IH. }
  induction ls as [|x ls IH]; intros best l' Hin Hp Hm; [destruct Hin|].
  cbn [longest_prefix]. destruct Hin as [->|Hin].
  - rewrite Hp, Hm. cbn [andb]. destruct (longer l' best) eqn:E.
    + apply Hkeep.
    + destruct best; [apply Hkeep | discriminate].
  - destruct (is_prefix x && loc_matches x u && longer x best);
      now apply (IH _ l').
Qed.

(** Some location is chosen as soon as one matches. *)
Lemma select_some (ls : list location) (u : string) (l' : location) :
  In l' ls -> loc_matches l' u = true -> select ls u <> None.
Proof.
  intros Hin Hm. unfold select.
  destruct (find (fun l => is_exact l && loc_matches l u) ls) eqn:F;
    [discriminate|].
  apply (longest_prefix_some ls u None l'); auto.
  destruct (is_prefix l') eqn:Hp; [reflexivity|].
  apply (find_none _ _ F) in Hin. unfold is_exact in Hin.
  now rewrite Hp, Hm in Hin.
Qed.

(** When an exact location matches, the first such is chosen. *)
Lemma select_exact_case (ls : list location) (u : string) (e : location) :
  find (fun l => is_exact l && loc_matches l u) ls = Some e ->
  select ls u = Some e
  /\ In e ls /\ is_exact e = true /\ loc_matches e u = true.
Proof.
  intros F. unfold select. rewrite F. apply find_some in F as [Hin Hf].
  apply andb_prop in Hf as [He Hm]. auto.
Qed.

(** When none does, every location that matches is a prefix, and the one
    chosen has the longest pattern among them. *)
Lemma select_prefix_case (ls : list location) (u : string) (l : location) :
  find (fun l => is_exact l && loc_matches l u) ls = None ->
  select ls u = Some l ->
  In l ls
  /\ is_prefix l = true
  /\ loc_matches l u = true
  /\ forall l', In l' ls -> loc_matches l' u = true ->
       is_prefix l' = true
       /\ String.length (loc_pattern l') <= String.length (loc_pattern l).
Proof.
  intros F H. unfold select in H. rewrite F in H.
  apply longest_prefix_spec in H; [|discriminate].
  destruct H as ([Hin|Hin] & Hp & Hm & Hmax); [|discriminate].
  split; [exact Hin|]. split; [exact Hp|]. split; [exact Hm|].
  intros l' Hin' Hm'.
  assert (Hp' : is_prefix l' = true).
  { destruct (is_prefix l') eqn:Hp'; [reflexivity|].
    apply (find_none _ _ F) in Hin'. unfold is_exact in Hin'.
    now rewrite Hp', Hm' in Hin'. }
  split; [exact Hp' | apply Hmax; auto].
Qed.

Lemma chosen_location_spec (ls : list location) (u : string)
    (l : location) :
  select ls u = Some l ->
  In l ls
  /\ loc_matches l u = true
  /\ forall l', In l' ls -> loc_matches l' u = true ->
       is_exact l = true
       \/ (is_prefix l' = true
           /\ String.length (loc_pattern l') <= String.length (loc_pattern l)).
Proof.
  intros H.
  destruct (find (fun l => is_exact l && loc_matches l u) ls) as [e|] eqn:F.
  - destruct (select_exact_case ls u e F) as (Hs & Hin & He & Hm).
    rewrite Hs in H. inversion H; subst e. auto.
  - destruct (select_prefix_case ls u l F H) as (Hin & _ & Hm & Hmax).
    split; [exact Hin|]. split; [exact Hm|].
    intros l' Hin' Hm'. right. now apply Hmax.
Qed.

Lemma starts_with_same_length (p q u : string) :
  starts_with p u = true -> starts_with q u = true ->
  String.length p = String.length q -> p = q.
Proof.
  unfold starts_with. revert q u.
  induction p as [|a p IH]; intros [|b q] u Hp Hq Hl; simpl in *;
    try discriminate; [reflexivity|].
  destruct u as [|c u]; [discriminate|].
  destruct (Ascii.eqb a c) eqn:Ea; [|discriminate].
  destruct (Ascii.eqb b c) eqn:Eb; [|discriminate].
  apply Ascii.eqb_eq in Ea, Eb. subst a b.
  f_equal. apply (IH q u); auto.
Qed.

Lemma same_match_same_key (l1 l2 : location) (u : string) :
  loc_matches l1 u = true -> loc_matches l2 u = true ->
  is_prefix l1 = is_prefix l2 ->
  (is_prefix l1 = true ->
   String.length (loc_pattern l1) = String.length (loc_pattern l2)) ->
  loc_modifier l1 = loc_modifier l2 /\ loc_pattern l1 = loc_pattern l2.
Proof.
  unfold loc_matches, is_prefix.
  destruct (loc_modifier l1), (loc_modifier l2); intros H1 H2 Hp Hl;
    try discriminate; split; try reflexivity.
  - apply (starts_with_same_length _ _ u); auto.
  - apply String.eqb_eq in H1, H2. congruence.
Qed.

(** The choice does not depend on the order in which the locations are
    written, as long as no two have the same modifier and pattern. *)
Lemma select_order_irrelevant (ls ls' : list location) (u : string) :
  (forall l, In l ls <-> In l ls') ->
  (forall l1 l2, In l1 ls -> In l2 ls ->
     loc_modifier l1 = loc_modifier l2 -> loc_pattern l1 = loc_pattern l2 ->
     l1 = l2) ->
  select ls u = select ls' u.
Proof.
  intros Hsame Hkeys.
  destruct (select ls u) as [l1|] eqn:E1, (select ls' u) as [l2|] eqn:E2;
    [ | | | reflexivity].
  - apply chosen_location_spec in E1 as (Hin1 & Hm1 & Hmax1).
    apply chosen_location_spec in E2 as (Hin2 & Hm2 & Hmax2).
    apply Hsame in Hin2.
    specialize (Hmax1 l2 Hin2 Hm2).
    specialize (Hmax2 l1 (proj1 (Hsame l1) Hin1) Hm1).
    f_equal. unfold is_exact in *.
    destruct (same_match_same_key l1 l2 u Hm1 Hm2) as [Hk1 Hk2].
    + destruct (is_prefix l1) eqn:P1, (is_prefix l2) eqn:P2; try reflexivity;
        simpl in *.
      * destruct Hmax1 as [?|[? _]]; discriminate.
      * destruct Hmax2 as [?|[? _]]; discriminate.
    + intros P1. rewrite P1 in *. simpl in *.
      destruct Hmax1 as [?|[P2 L1]]; [discriminate|].
      rewrite P2 in *. simpl in *.
      destruct Hmax2 as [?|[_ L2]]; [discriminate|]. lia.
    + now apply Hkeys.
  - apply chosen_location_spec in E1 as (Hin1 & Hm1 & _).
    apply Hsame in Hin1. now elim (select_some ls' u l1).
  - apply chosen_location_spec in E2 as (Hin2 & Hm2 & _).
    apply Hsame in Hin2. now elim (select_some ls u l2).
Qed.

Lemma select_order_irrelevant_witness :
  (forall l, In l [loc_jobs; loc_50x; loc_next; loc_root]
             <-> In l (srv_locations site))
  /\ select [loc_jobs; loc_50x; loc_next; loc_root] "/jobs/foo"
     = select (srv_locations site) "/jobs/foo".
Proof.
  assert (Hsame : forall l, In l (srv_locations site)
                            <-> In l [loc_jobs; loc_50x; loc_next; loc_root]).
  { intros l. rewrite site_locations. simpl. tauto. }
  split; [intros l; symmetry; apply Hsame|].
  symmetry. apply select_order_irrelevant; [exact Hsame|].
  rewrite site_locations. intros l1 l2 H1 H2.
  simpl in H1, H2.
  repeat (destruct H1 as [<-|H1]); try contradiction;
    repeat (destruct H2 as [<-|H2]); try contradiction;
    intros Hm Hp; try reflexivity; discriminate.
Defined.

(** C1, as the configuration has it: the location chosen for a path is one
    of the table that matches it, and it is either an exact match or the
    matching prefix with the longest pattern; every other matching location
    is then a prefix that is not longer. *)
Theorem select_longest_match (ls : list location) (u : string) (l : location) :
  select ls u = Some l ->
  In l ls
  /\ loc_matches l u = true
  /\ forall l', In l' ls -> loc_matches l' u = true ->
       is_exact l = true
       \/ (is_prefix l' = true
           /\ String.length (loc_pattern l') <= String.length (loc_pattern l)).
Proof.
  intros H.
  destruct (find (fun x => is_exact x && loc_matches x u) ls) as [e|] eqn:F.
  - (* an exact location matches: it is the one chosen *)
    destruct (select_exact_case ls u e F) as (Hs & Hin & He & Hm).
    assert (e = l) by congruence. subst e.
    split; [exact Hin|]. split; [exact Hm|]. intros l' _ _. now left.
  - (* none does: the longest matching prefix *)
    destruct (select_prefix_case ls u l F H) as (Hin & Hp & Hm & Hmax).
    split; [exact Hin|]. split; [exact Hm|].
    intros l' Hin' Hm'. right.
    destruct (Hmax l' Hin' Hm') as [Hp' Hlen]. split; assumption.
Qed.

Lemma select_longest_match_witness :
  select (srv_locations site) "/jobs/foo" = Some loc_jobs
  /\ In loc_jobs (srv_locations site)
  /\ loc_matches loc_jobs "/jobs/foo" = true
  /\ (is_exact loc_jobs = true
      \/ (is_prefix loc_root = true
          /\ String.length (loc_pattern loc_root)
             <= String.length (loc_pattern loc_jobs))).
Proof.
  assert (H : select (srv_locations site) "/jobs/foo" = Some loc_jobs)
    by reflexivity.
  destruct (select_longest_match _ _ _ H) as (Hin & Hm & Hmax).
  repeat split; auto.
  apply Hmax; [left; reflexivity | reflexivity].
Defined.

(** For [/jobs/foo] the first location in the order written that matches is
    the catch-all, yet the one chosen is [location /jobs]. *)
Lemma first_match_not_selected :
  first_match (srv_locations site) "/jobs/foo" = Some loc_root
  /\ select (srv_locations site) "/jobs/foo" = Some loc_jobs
  /\ select (srv_locations site) "/jobs/foo"
     <> first_match (srv_locations site) "/jobs/foo".
Proof. repeat split; [reflexivity .. | discriminate]. Qed.

(** ** The listener *)

Lemma route_listener (r : Alb.request) :
  Alb.route Source.listener r =
  if Alb.host_matches "www.bim.com.sg" (Alb.host r)
  then Alb.Forward ["NginxTargetGroup"]
  else Alb.FixedResponse 403 "text/plain" "Forbidden".
Proof.
  unfold Alb.route, Source.listener, Alb.first_rule, Alb.rule_applies.
  cbn -[Alb.host_matches].
  destruct (Alb.host_matches "www.bim.com.sg" (Alb.host r)); reflexivity.
Qed.

(** A request with the host of the rule is handed to the proxy. *)
Lemma allowed_host_reaches_proxy (srv : server) (lb : string)
    (r : Alb.request) :
  Alb.host_matches "www.bim.com.sg" (Alb.host r) = true ->
  serve srv lb r = FromTarget (handle srv (to_target lb r)).
Proof. intros H. unfold serve. now rewrite route_listener, H. Qed.

(** C7: a request whose Host is not [www.bim.com.sg] is answered by the
    listener with the fixed 403 [Forbidden], whatever its path and whatever
    the proxy is configured with; it is not handed to the proxy. *)
Theorem listener_host_gate (srv : server) (lb : string) (r : Alb.request) :
  Alb.host_matches "www.bim.com.sg" (Alb.host r) = false ->
  serve srv lb r = Fixed 403 "text/plain" "Forbidden"
  /\ forall o, serve srv lb r <> FromTarget o.
Proof.
  intros H. unfold serve. rewrite route_listener, H.
  split; [reflexivity | discriminate].
Qed.

Lemma listener_host_gate_witness :
  Alb.host_matches "www.bim.com.sg" (Alb.host (client "example.org" "/jobs/foo"))
  = false
  /\ serve site "10.0.0.7" (client "example.org" "/jobs/foo")
     = Fixed 403 "text/plain" "Forbidden".
Proof.
  split; [reflexivity|].
  apply (listener_host_gate site "10.0.0.7" (client "example.org" "/jobs/foo")).
  reflexivity.
Defined.

(** In [site] the catch-all matches every path that begins with [/]. *)
Lemma site_always_matches (u : string) :
  starts_with "/" u = true -> select (srv_locations site) u <> None.
Proof.
  intros H. apply (select_some _ _ loc_root); [now left | exact H].
Qed.

(** ** The routes *)

(** The two routes to [jobs.bimeco.io] set each forwarded header once. *)
Lemma sibling_routes_forward_headers (req : request) (l : location) :
  l = loc_next \/ l = loc_jobs ->
  set_headers l req = forwarded "jobs.bimeco.io" req
  /\ times "Host" (set_headers l req) = 1
  /\ times "X-Forwarded-For" (set_headers l req) = 1
  /\ times "X-Forwarded-Proto" (set_headers l req) = 1.
Proof. intros [->| ->]; repeat split; reflexivity. Qed.

(** C4 at a request for [/]: the catch-all sets the fixed [Host] and
    nothing else; the forwarding chain and the scheme are not sent. *)
Theorem catch_all_sends_host_only :
  handle site (sample "/")
  = Proxied loc_root
      (upstream "www.bim.com.sg" "/" [("Host", "www.bim.com.sg")])
  /\ times "X-Forwarded-For" (set_headers loc_root (sample "/")) = 0
  /\ times "X-Forwarded-Proto" (set_headers loc_root (sample "/")) = 0
  /\ set_headers loc_root (sample "/")
     <> forwarded "www.bim.com.sg" (sample "/").
Proof. repeat split; [reflexivity .. | discriminate]. Qed.

(** C10: the location chosen depends on the path alone; two requests with
    the same path are given the same location by any table, and [site]
    sends them to the same upstream with the same URI. *)
Theorem route_selection_deterministic (srv : server) (r1 r2 : request) :
  uri r1 = uri r2 ->
  select (srv_locations srv) (uri r1) = select (srv_locations srv) (uri r2)
  /\ target (handle site r1) = target (handle site r2).
Proof.
  intros H. split; [now rewrite H|].
  rewrite !handle_site. unfold site_answer. cbv zeta. rewrite <- H.
  destruct (String.eqb "/50x.html" (uri r1)); [reflexivity|].
  destruct (starts_with "/_next/" (uri r1)); [reflexivity|].
  destruct (starts_with "/jobs" (uri r1)); [reflexivity|].
  destruct (starts_with "/" (uri r1)); reflexivity.
Qed.

Lemma route_selection_deterministic_witness :
  uri (sample "/jobs/foo") = uri (other_peer "/jobs/foo")
  /\ select (srv_locations site) (uri (sample "/jobs/foo"))
     = select (srv_locations site) (uri (other_peer "/jobs/foo"))
  /\ target (handle site (sample "/jobs/foo"))
     = target (handle site (other_peer "/jobs/foo")).
Proof.
  split; [reflexivity|].
  apply (route_selection_deterministic site (sample "/jobs/foo")
           (other_peer "/jobs/foo")).
  reflexivity.
Defined.

(** ** The file and the server *)

(** nginx refuses the file the boot script writes: no server runs from
    it, and no request is answered by the proxy. *)
Lemma running_refused : running = None.
Proof. vm_compute. reflexivity. Qed.

Lemma proxy_answers_nothing (req : request) : proxy_answer req = None.
Proof. unfold proxy_answer. now rewrite running_refused. Qed.

(** Had the three references of [location /] been kept, as those of the
    other blocks are, nginx would load the file and pass a request for
    [/_next/chunk.js] on. *)
Lemma accepted_when_references_kept :
  option_map (fun srv => target (handle srv (sample "/_next/chunk.js")))
    (running_with reference_env)
  = Some (Proxied loc_next (upstream "jobs.bimeco.io" "/_next/chunk.js" [])).
Proof. vm_compute. reflexivity. Qed.

(** ** What the blocks say *)

Lemma rewrite_jobs_eq (req : request) (u : string) :
  run_rewrites (Conf.named "rewrite" (loc_body loc_jobs)) req u false
  = match Regex.exec jobs_regex u with
    | Some caps => Stay ("/career" ++ Regex.capture 1 caps) true
    | None => Stay u false
    end.
Proof.
  change (Conf.named "rewrite" (loc_body loc_jobs))
    with [Conf.Dir "rewrite" ["^/jobs(/.*)?$"; "/career$1"; "break"] None].
  unfold run_rewrites.
  change (rewrite_of
            (Conf.Dir "rewrite" ["^/jobs(/.*)?$"; "/career$1"; "break"] None))
    with (Some {| rw_regex := jobs_regex; rw_replacement := "/career$1";
                  rw_flag := Break |}).
  cbv beta iota. cbn [rw_regex rw_flag rw_replacement].
  destruct (Regex.exec jobs_regex u) as [caps|]; [|reflexivity].
  now rewrite eval_career.
Qed.


(** For [/jobs/foo] the rewrite gives [/career/foo], and a redirect of the
    upstream to the relative [/career/foo] comes back as it is, not as
    [/jobs/foo]; so does one to [https://jobs.bimeco.io/career], the
    absolute form of what [/jobs] is rewritten to. *)
Lemma relative_location_not_mapped_back :
  run_rewrites (Conf.named "rewrite" (loc_body loc_jobs)) (sample "/jobs/foo")
    "/jobs/foo" false
  = Stay "/career/foo" true
  /\ proxy_redirect loc_jobs "/career/foo" = "/career/foo"
  /\ proxy_redirect loc_jobs "/career/foo" <> "/jobs/foo"
  /\ run_rewrites (Conf.named "rewrite" (loc_body loc_jobs)) (sample "/jobs")
       "/jobs" false
     = Stay "/career" true
  /\ proxy_redirect loc_jobs "https://jobs.bimeco.io/career" <> "/jobs".
Proof. repeat split; try reflexivity; discriminate. Qed.

(** C3, as the block has it: the rewrite of [location /jobs] turns the URI
    [/jobs/t] into [/career/t] and keeps the request in the location,
    whose [proxy_pass] names [https://jobs.bimeco.io] and sends the
    rewritten URI; [proxy_redirect] turns the absolute URL of that URI on
    that upstream back into [/jobs/t]. *)
Theorem jobs_rewrite_and_redirect (req : request) (t : string) :
  no_newline t = true ->
  run_rewrites (Conf.named "rewrite" (loc_body loc_jobs)) req ("/jobs/" ++ t)
    false
  = Stay ("/career/" ++ t) true
  /\ pass_to loc_jobs ("/career/" ++ t) true
     = Some ("https", "jobs.bimeco.io", "/career/" ++ t)
  /\ proxy_redirect loc_jobs ("https://jobs.bimeco.io" ++ "/career/" ++ t)
     = "/jobs/" ++ t.
Proof.
  intros Hnl. split; [|split; reflexivity].
  rewrite rewrite_jobs_eq, (exec_jobs t Hnl). reflexivity.
Qed.

Lemma jobs_rewrite_and_redirect_witness :
  no_newline "foo" = true
  /\ run_rewrites (Conf.named "rewrite" (loc_body loc_jobs))
       (sample "/jobs/foo") "/jobs/foo" false
     = Stay "/career/foo" true
  /\ pass_to loc_jobs "/career/foo" true
     = Some ("https", "jobs.bimeco.io", "/career/foo")
  /\ proxy_redirect loc_jobs "https://jobs.bimeco.io/career/foo" = "/jobs/foo".
Proof.
  split; [reflexivity|].
  exact (jobs_rewrite_and_redirect (sample "/jobs/foo") "foo" eq_refl).
Defined.

(** C5 at a request for [/_next/chunk.js]: [location /_next/] is the
    block chosen for it and says to pass it to [jobs.bimeco.io] with the
    same URI, but nginx refuses the file for the lines of [location /],
    and the request is answered by no proxy. *)
Theorem next_route_not_served :
  proxy_answer (sample "/_next/chunk.js") = None
  /\ select (srv_locations site) "/_next/chunk.js" = Some loc_next
  /\ pass_to loc_next "/_next/chunk.js" false
     = Some ("https", "jobs.bimeco.io", "/_next/chunk.js")
  /\ In ("Host", "jobs.bimeco.io")
       (set_headers loc_next (sample "/_next/chunk.js")).
Proof.
  split; [apply proxy_answers_nothing|].
  split; [reflexivity|]. split; [reflexivity|]. left. reflexivity.
Qed.

(** [/50x.html] is under neither [/_next/] nor [/jobs]; it has a location
    of its own, which passes nothing on and serves local files. *)
Lemma error_page_path_has_own_location :
  starts_with "/_next/" "/50x.html" = false
  /\ starts_with "/jobs" "/50x.html" = false
  /\ select (srv_locations site) "/50x.html" = Some loc_50x
  /\ pass_to loc_50x "/50x.html" false = None
  /\ root_of (loc_body loc_50x) = Some "/usr/share/nginx/html".
Proof. repeat split; reflexivity. Qed.

Lemma auto_redirect_site (u : string) :
  starts_with "/" u = true ->
  u <> "/50x.html" ->
  u <> "/_next" ->
  auto_redirect (srv_locations site) u = None.
Proof.
  intros Hs H5 Hn. unfold auto_redirect. rewrite site_locations.
  cbn [find is_exact is_prefix loc_modifier negb andb loc_matches loc_root
       loc_next loc_jobs loc_50x loc_pattern].
  destruct (String.eqb "/50x.html" u) eqn:E5.
  { apply String.eqb_eq in E5. now elim H5. }
  change (has_proxy_pass loc_root) with true.
  change (has_proxy_pass loc_next) with true.
  change (has_proxy_pass loc_jobs) with true.
  cbn [andb loc_root loc_next loc_jobs loc_pattern].
  destruct (String.eqb "/" (u ++ "/")) eqn:E1.
  { apply String.eqb_eq in E1. destruct u as [|c [|d u]]; discriminate. }
  destruct (String.eqb "/_next/" (u ++ "/")) eqn:E2.
  { apply String.eqb_eq in E2. elim Hn.
    do 6 (destruct u as [|? u]; [discriminate|];
          injection E2 as <- E2).
    destruct u as [|? u]; [reflexivity|].
    destruct u; discriminate. }
  destruct (String.eqb "/jobs" (u ++ "/")) eqn:E3.
  { apply String.eqb_eq in E3.
    do 4 (destruct u as [|? u]; [discriminate|];
          injection E3 as <- E3).
    destruct u as [|? u]; [discriminate|].
    destruct u; discriminate. }
  reflexivity.
Qed.

(** C6, as the table has it: for a URI under neither [/_next/] nor [/jobs]
    that is neither [/50x.html] nor [/_next], the location chosen is the
    catch-all, no redirect to a pattern applies, the location rewrites
    nothing, and its [proxy_pass] names [https://www.bim.com.sg] and sends
    the URI as it is. *)
Theorem catch_all_chosen_for_unmatched (req : request) (u : string) :
  starts_with "/" u = true ->
  starts_with "/_next/" u = false ->
  starts_with "/jobs" u = false ->
  u <> "/50x.html" ->
  u <> "/_next" ->
  select (srv_locations site) u = Some loc_root
  /\ auto_redirect (srv_locations site) u = None
  /\ run_rewrites (Conf.named "rewrite" (loc_body loc_root)) req u false
     = Stay u false
  /\ pass_to loc_root u false = Some ("https", "www.bim.com.sg", u).
Proof.
  intros H0 H1 H2 H3 H4.
  split.
  { rewrite select_site_eq. unfold select_site.
    destruct (String.eqb "/50x.html" u) eqn:E.
    { apply String.eqb_eq in E. now elim H3. }
    now rewrite H1, H2, H0. }
  split; [now apply auto_redirect_site|].
  split; reflexivity.
Qed.

Lemma catch_all_chosen_for_unmatched_witness :
  starts_with "/" "/anything-else" = true
  /\ starts_with "/_next/" "/anything-else" = false
  /\ starts_with "/jobs" "/anything-else" = false
  /\ "/anything-else" <> "/50x.html"
  /\ "/anything-else" <> "/_next"
  /\ select (srv_locations site) "/anything-else" = Some loc_root
  /\ auto_redirect (srv_locations site) "/anything-else" = None
  /\ run_rewrites (Conf.named "rewrite" (loc_body loc_root))
       (sample "/anything-else") "/anything-else" false
     = Stay "/anything-else" false
  /\ pass_to loc_root "/anything-else" false
     = Some ("https", "www.bim.com.sg", "/anything-else").
Proof.
  do 3 (split; [reflexivity|]). do 2 (split; [discriminate|]).
  apply (catch_all_chosen_for_unmatched (sample "/anything-else")
           "/anything-else");
    [reflexivity | reflexivity | reflexivity | discriminate | discriminate].
Defined.

(** [/_next], without the slash, is the pattern of [location /_next/]
    less its slash: it is answered with a redirect to [/_next/]. *)
Example next_without_slash :
  auto_redirect (srv_locations site) "/_next" = Some loc_next.
Proof. reflexivity. Qed.




(** ** Timeouts and error pages *)

(** [location /jobs] sets both timeouts to sixty seconds; the other
    locations set none. *)
Lemma jobs_timeouts :
  timeout "proxy_connect_timeout" loc_jobs = Some 60
  /\ timeout "proxy_read_timeout" loc_jobs = Some 60
  /\ timeout "proxy_read_timeout" loc_root = None
  /\ timeout "proxy_read_timeout" loc_next = None.
Proof. repeat split; reflexivity. Qed.

(** The page named for a 504, and where it is served from. *)
Lemma gateway_timeout_page :
  error_page (srv_body site) "504" = Some "/50x.html"
  /\ handle site (sample "/50x.html")
     = Static "/usr/share/nginx/html" "/50x.html".
Proof. split; reflexivity. Qed.

(** * Further properties *)

(** ** The template on its way through the shell *)

Lemma app_string_assoc (a b c : string) : (a ++ b) ++ c = a ++ (b ++ c).
Proof. induction a as [|x a IH]; simpl; [reflexivity | now rewrite IH]. Qed.

Lemma alpha_not_special (c : ascii) :
  is_alpha c || is_digit c = true ->
  Ascii.eqb c backslash = false /\ Ascii.eqb c dollar = false.
Proof.
  destruct c as [[] [] [] [] [] [] [] []]; vm_compute; intros H;
    try discriminate; split; reflexivity.
Qed.

Lemma alpha_not_digit (c : ascii) : is_alpha c = true -> is_digit c = false.
Proof.
  destruct c as [[] [] [] [] [] [] [] []]; vm_compute; intros H;
    try discriminate; reflexivity.
Qed.

Lemma cook_name (n rest : string) :
  name_chars n = true -> Js.cook (n ++ rest) = n ++ Js.cook rest.
Proof.
  induction n as [|c n IH]; intros H; [reflexivity|].
  simpl in H. apply andb_prop in H as [Hc Hn].
  destruct (alpha_not_special c Hc) as [Hb _].
  cbn [append Js.cook]. rewrite Hb. now rewrite IH.
Qed.

Lemma run_text_name (esc : bool) (value : string -> string) (n rest : string) :
  name_chars n = true ->
  Scan.run esc value Scan.Text (n ++ rest)
  = n ++ Scan.run esc value Scan.Text rest.
Proof.
  induction n as [|c n IH]; intros H; [reflexivity|].
  simpl in H. apply andb_prop in H as [Hc Hn].
  destruct (alpha_not_special c Hc) as [Hb Hd].
  cbn [append Scan.run Scan.step]. unfold Scan.text_step.
  rewrite Hb, Hd, andb_false_r. cbn [append str1]. now rewrite IH.
Qed.

Lemma run_in_name (esc : bool) (value : string -> string)
    (acc n rest : string) :
  name_chars n = true ->
  Scan.run esc value (Scan.Name acc) (n ++ String ";" rest)
  = value (acc ++ n) ++ String ";" (Scan.run esc value Scan.Text rest).
Proof.
  revert acc. induction n as [|c n IH]; intros acc H.
  - destruct esc; cbn; rewrite append_empty_r; apply app_string_assoc.
  - simpl in H. apply andb_prop in H as [Hc Hn].
    cbn [append Scan.run Scan.step]. rewrite Hc. cbn [append].
    rewrite IH by exact Hn. now rewrite app_string_assoc.
Qed.

Lemma name_chars_of_name (n : string) : is_name n = true -> name_chars n = true.
Proof.
  destruct n as [|c n]; [discriminate|]. simpl. intros H.
  apply andb_prop in H as [Hc Hn]. now rewrite Hc, Hn.
Qed.

(** A reference the template writes with the two backslashes reaches the
    file as the reference itself, whatever the shell variables are; one
    written bare is replaced by the value of the shell variable, which is
    empty when the variable is unset. *)
Theorem escaped_reference_kept (e : Sh.env) (n : string) :
  is_name n = true ->
  Sh.expand e (Js.cook ("\\$" ++ n ++ ";")) = "$" ++ n ++ ";"
  /\ Sh.expand e (Js.cook ("$" ++ n ++ ";")) = Sh.value e n ++ ";".
Proof.
  intros Hn. pose proof (name_chars_of_name n Hn) as Hc. split.
  - cbn [append Js.cook]. cbn [Ascii.eqb Bool.eqb backslash Js.escape].
    change (Js.cook (String "$" (n ++ ";")))
      with (String "$" (Js.cook (n ++ ";"))).
    rewrite cook_name by exact Hc.
    unfold Sh.expand, Scan.subst. cbn [Scan.run Scan.step Scan.text_step].
    cbn. rewrite run_text_name by exact Hc. reflexivity.
  - change (Js.cook ("$" ++ n ++ ";")) with (String "$" (Js.cook (n ++ ";"))).
    rewrite cook_name by exact Hc.
    destruct n as [|c n]; [discriminate|].
    simpl in Hn. apply andb_prop in Hn as [Ha Hr].
    unfold Sh.expand, Scan.subst.
    cbn [append Scan.run Scan.step].
    change (Scan.text_step true "$") with (Scan.Dollar, EmptyString).
    cbn [append Scan.step].
    rewrite (alpha_not_digit c Ha), Ha. cbn [append].
    change (Js.cook ";") with (String ";" EmptyString).
    rewrite run_in_name by exact Hr. reflexivity.
Qed.

Lemma escaped_reference_kept_witness :
  is_name "remote_addr" = true
  /\ Sh.expand Source.boot_env (Js.cook "\\$remote_addr;") = "$remote_addr;"
  /\ Sh.expand Source.boot_env (Js.cook "$remote_addr;") = ";".
Proof.
  split; [reflexivity|].
  exact (escaped_reference_kept Source.boot_env "remote_addr" eq_refl).
Defined.

(** The text written to the site file depends on the shell variables only
    through [remote_addr], [proxy_add_x_forwarded_for] and [scheme]. *)
Theorem site_text_three_variables (e e' : Sh.env) :
  e "remote_addr" = e' "remote_addr" ->
  e "proxy_add_x_forwarded_for" = e' "proxy_add_x_forwarded_for" ->
  e "scheme" = e' "scheme" ->
  Source.site_text e = Source.site_text e'.
Proof.
  intros H1 H2 H3.
  vm_compute. rewrite H1, H2, H3. reflexivity.
Qed.

Lemma site_text_three_variables_witness :
  Source.site_text home_env = Source.site_text Source.boot_env.
Proof.
  apply (site_text_three_variables home_env Source.boot_env); reflexivity.
Defined.

(** ** The rewrite of [location /jobs], on every path of the location *)

Lemma search_bol_later (total : nat) (r : Regex.regex) (s : string) :
  String.length s < total ->
  Regex.search total (Regex.RSeq Regex.RBol r) s = None.
Proof.
  induction s as [|c s IH]; intros H; cbn [Regex.search Regex.run].
  - replace (Nat.eqb (String.length EmptyString) total) with false
      by (symmetry; apply Nat.eqb_neq; lia).
    reflexivity.
  - replace (Nat.eqb (String.length (String c s)) total) with false
      by (symmetry; apply Nat.eqb_neq; lia).
    apply IH. simpl in H. lia.
Qed.

(** An expression that begins with [^] matches at the start or nowhere. *)
Lemma exec_bol (r : Regex.regex) (u : string) :
  Regex.exec (Regex.RSeq Regex.RBol r) u
  = Regex.run (String.length u) (Regex.RSeq Regex.RBol r) u []
      (fun _ c => Some c).
Proof.
  unfold Regex.exec. destruct u as [|c u]; cbn [Regex.search].
  - destruct (Regex.run _ _ _ _ _); reflexivity.
  - destruct (Regex.run _ _ _ _ _); [reflexivity|].
    apply search_bol_later. simpl. lia.
Qed.

Lemma exec_jobs_other (c : ascii) (r : string) :
  Ascii.eqb c "/" = false ->
  Ascii.eqb c LF = false ->
  Regex.exec jobs_regex ("/jobs" ++ String c r) = None.
Proof.
  intros Hs Hl. unfold jobs_regex. rewrite exec_bol.
  cbn [append].
  cbn -[Regex.star_loop String.length take Nat.eqb].
  rewrite Nat.eqb_refl, Hs, Hl. reflexivity.
Qed.

(** Of the URIs that [location /jobs] takes, the rewrite changes [/jobs]
    itself and those under [/jobs/]; every other one, such as [/jobsfoo],
    is left as it came.  In each case the request stays in the location,
    whose [proxy_pass] sends the URI it is left with. *)
Theorem jobs_rewrite_cases (req : request) (t : string) :
  no_newline t = true ->
  run_rewrites (Conf.named "rewrite" (loc_body loc_jobs)) req ("/jobs" ++ t)
    false
  = match t with
    | EmptyString => Stay "/career" true
    | String c _ =>
        if Ascii.eqb c "/" then Stay ("/career" ++ t) true
        else Stay ("/jobs" ++ t) false
    end.
Proof.
  intros Hnl. rewrite rewrite_jobs_eq.
  destruct t as [|c r]; [reflexivity|].
  simpl in Hnl. apply andb_prop in Hnl as [Hc Hr].
  apply negb_true_iff in Hc.
  destruct (Ascii.eqb c "/") eqn:E.
  - apply Ascii.eqb_eq in E. subst c.
    change ("/jobs" ++ String "/" r) with ("/jobs/" ++ r).
    rewrite (exec_jobs r Hr). reflexivity.
  - now rewrite exec_jobs_other.
Qed.

Lemma jobs_rewrite_cases_witness :
  no_newline "foo" = true
  /\ run_rewrites (Conf.named "rewrite" (loc_body loc_jobs))
       (sample "/jobsfoo") "/jobsfoo" false
     = Stay "/jobsfoo" false.
Proof.
  split; [reflexivity|].
  exact (jobs_rewrite_cases (sample "/jobsfoo") "foo" eq_refl).
Defined.

(** A redirect of [jobs.bimeco.io] to a relative [/career/t] comes back
    unchanged, and the location chosen for [/career/t] is the catch-all,
    whose [proxy_pass] names [www.bim.com.sg], not [jobs.bimeco.io]. *)
Theorem relative_career_redirect_to_primary (t : string) :
  proxy_redirect loc_jobs ("/career/" ++ t) = "/career/" ++ t
  /\ select (srv_locations site) ("/career/" ++ t) = Some loc_root
  /\ pass_to loc_root ("/career/" ++ t) false
     = Some ("https", "www.bim.com.sg", "/career/" ++ t).
Proof.
  split; [reflexivity|]. split; [|reflexivity].
  rewrite select_site_eq. reflexivity.
Qed.

(** ** Tables with a catch-all *)

(** In any table that has a [location /], every path that begins with [/]
    is given a location, and one that matches it. *)
Theorem catch_all_routes_every_path (ls : list location) (l : location)
    (u : string) :
  In l ls ->
  loc_modifier l = Prefix ->
  loc_pattern l = "/" ->
  starts_with "/" u = true ->
  exists l', select ls u = Some l' /\ In l' ls /\ loc_matches l' u = true.
Proof.
  intros Hin Hm Hp Hu.
  assert (Hl : loc_matches l u = true).
  { unfold loc_matches. now rewrite Hm, Hp. }
  destruct (select ls u) as [l'|] eqn:E.
  - exists l'. destruct (chosen_location_spec ls u l' E) as (H1 & H2 & _).
    auto.
  - now elim (select_some ls u l Hin Hl).
Qed.

Lemma catch_all_routes_every_path_witness :
  In loc_root [loc_jobs; loc_root]
  /\ loc_modifier loc_root = Prefix
  /\ loc_pattern loc_root = "/"
  /\ starts_with "/" "/about" = true
  /\ exists l', select [loc_jobs; loc_root] "/about" = Some l'
                /\ In l' [loc_jobs; loc_root]
                /\ loc_matches l' "/about" = true.
Proof.
  assert (Hin : In loc_root [loc_jobs; loc_root]) by (right; left; reflexivity).
  split; [exact Hin|]. do 3 (split; [reflexivity|]).
  exact (catch_all_routes_every_path [loc_jobs; loc_root] loc_root "/about"
           Hin eq_refl eq_refl eq_refl).
Defined.

(** ** Rules of a listener *)

Lemma first_rule_spec (rs : list Alb.rule) (r : Alb.request) :
  forall best ru,
    (forall b, best = Some b -> Alb.rule_applies b r = true) ->
    Alb.first_rule rs r best = Some ru ->
    (In ru rs \/ best = Some ru)
    /\ Alb.rule_applies ru r = true
    /\ forall ru', In ru' rs \/ best = Some ru' ->
         Alb.rule_applies ru' r = true ->
         Alb.priority ru <= Alb.priority ru'.
Proof.
  induction rs as [|x rs IH]; intros best ru Hbest H; cbn [Alb.first_rule] in H.
  - subst best. split; [now right|]. split; [now apply Hbest|].
    intros ru' [[]|E] _. inversion E. lia.
  - destruct (Alb.rule_applies x r && Alb.before x best) eqn:E.
    + apply andb_prop in E as [Ha Hb].
      apply IH in H; [|intros b Eb; now inversion Eb; subst].
      destruct H as (Hin & Hap & Hmin).
      split; [|split; [exact Hap|]].
      * destruct Hin as [Hin|Hin]; [left; now right|].
        inversion Hin; subst. left; now left.
      * intros ru' [[Hx|Hi]|Hb'] Hap'.
        -- subst ru'. apply Hmin; auto.
        -- apply Hmin; auto.
        -- subst best. unfold Alb.before in Hb. apply Nat.ltb_lt in Hb.
           specialize (Hmin x (or_intror eq_refl) Ha). lia.
    + apply IH in H; [|exact Hbest].
      destruct H as (Hin & Hap & Hmin).
      split; [|split; [exact Hap|]].
      * destruct Hin; [left; now right | now right].
      * intros ru' [[Hx|Hi]|Hb'] Hap'.
        -- subst ru'. rewrite Hap' in E. cbn [andb] in E.
           destruct best as [b|]; cbn [Alb.before] in E; [|discriminate].
           apply Nat.ltb_ge in E.
           specialize (Hmin b (or_intror eq_refl) (Hbest b eq_refl)). lia.
        -- apply Hmin; auto.
        -- apply Hmin; auto.
Qed.

Lemma first_rule_none (rs : list Alb.rule) (r : Alb.request) :
  Alb.first_rule rs r None = None ->
  forall ru, In ru rs -> Alb.rule_applies ru r = false.
Proof.
  assert (Hkeep : forall rs b, Alb.first_rule rs r (Some b) <> None).
  { clear. induction rs as [|x rs IH]; intros b; cbn [Alb.first_rule];
      [discriminate|].
    destruct (Alb.rule_applies x r && Alb.before x (Some b)); apply IH. }
  induction rs as [|x rs IH]; intros H ru [].
  - subst x. cbn [Alb.first_rule] in H.
    destruct (Alb.rule_applies ru r); [|reflexivity].
    cbn in H. now apply Hkeep in H.
  - cbn [Alb.first_rule] in H.
    destruct (Alb.rule_applies x r); cbn in H.
    + now apply Hkeep in H.
    + now apply IH.
Qed.

(** On any listener, the action taken is that of a rule that applies and
    has the least priority number among those that do, and it is the
    default action when no rule applies. *)
Theorem listener_rule_order (l : Alb.listener) (r : Alb.request) :
  (exists ru,
     In ru (Alb.rules l)
     /\ Alb.rule_applies ru r = true
     /\ Alb.route l r = Alb.rule_action ru
     /\ forall ru', In ru' (Alb.rules l) -> Alb.rule_applies ru' r = true ->
          Alb.priority ru <= Alb.priority ru')
  \/ (Alb.route l r = Alb.defaultAction l
      /\ forall ru, In ru (Alb.rules l) -> Alb.rule_applies ru r = false).
Proof.
  unfold Alb.route.
  destruct (Alb.first_rule (Alb.rules l) r None) as [ru|] eqn:E.
  - left. exists ru.
    apply first_rule_spec in E; [|discriminate].
    destruct E as ([Hin|Hin] & Hap & Hmin); [|discriminate].
    repeat split; auto.
  - right. split; [reflexivity|]. now apply first_rule_none.
Qed.

(** ** Who can connect *)

Import Ec2 Deploy.

Lemma existsb_eqb_in (x : string) (l : list string) :
  existsb (String.eqb x) l = true -> In x l.
Proof.
  intros H. apply existsb_exists in H as (y & Hin & E).
  apply String.eqb_eq in E. now subst y.
Qed.

Lemma admits_instance (c : connection) :
  admits ec2SecurityGroup c
  = existsb (String.eqb (sg_id albSecurityGroup)) (src_groups c)
    && Nat.eqb 80 (dst_port c).
Proof.
  unfold admits, ec2SecurityGroup, addIngressRule.
  cbn [sg_ingress app existsb ir_peer ir_port peer_matches].
  now rewrite orb_false_r.
Qed.

(** The balancer lets connections in on the port of its listener and on
    no other; the instance lets them in only from members of the
    balancer's security group, and only on the port of the target group,
    which is a port the proxy listens on. *)
Theorem instance_behind_balancer (c : connection) :
  (admits albSecurityGroup c = true -> dst_port c = Alb.port Source.listener)
  /\ (admits ec2SecurityGroup c = true ->
      In (sg_id albSecurityGroup) (src_groups c)
      /\ dst_port c = Alb.tg_port Source.targetGroup
      /\ In (Some (dst_port c)) (listen_ports site)).
Proof.
  split.
  - unfold admits, albSecurityGroup, addIngressRule.
    cbn [sg_ingress app existsb ir_peer ir_port peer_matches andb].
    rewrite orb_false_r.
    intros H. apply Nat.eqb_eq in H. now rewrite <- H.
  - rewrite admits_instance. intros H. apply andb_prop in H as [Hg Hp].
    apply Nat.eqb_eq in Hp. apply existsb_eqb_in in Hg.
    rewrite <- Hp. split; [exact Hg|]. split; [reflexivity|].
    left. reflexivity.
Qed.

Lemma instance_behind_balancer_witness :
  admits albSecurityGroup {| src_groups := []; dst_port := 443 |} = true
  /\ admits ec2SecurityGroup
       {| src_groups := ["AlbSecurityGroup"]; dst_port := 80 |} = true
  /\ In (Some 80) (listen_ports site).
Proof.
  split; [reflexivity|]. split; [reflexivity|].
  apply (proj2 (instance_behind_balancer
                  {| src_groups := ["AlbSecurityGroup"]; dst_port := 80 |})).
  reflexivity.
Defined.
